(** * promtest: collecting, filtering and asserting on prometheus metrics

    A shallow embedding of [collect.go] (package [promtest]) and the
    properties of its collect / filter / aggregate pipeline.

    Layout:
    - [F64], [GoInt]: the numeric types of the Go code ([float64] as IEEE-754
      binary64 over [spec_float], [uint64] and [int] as [Z] with the
      wrap-around written out);
    - the fields of the [client_model] structs the code reads, and the
      [prometheus] interfaces it calls;
    - the [Reporter] as an effect: the calls made, plus the abort of [Fatal];
    - the functions of [collect.go], under their own names;
    - the channel handoff of [CollectMetrics] as a transition system driven
      by a schedule;
    - the vocabulary of the statements and the concrete inputs;
    - the lemmas and theorems, function by function. *)

From Stdlib Require Import ZArith List String Ascii Bool Lia Permutation.
From Stdlib Require Import SpecFloat.
Import ListNotations.

Local Open Scope string_scope.
Local Open Scope list_scope.

(* ===================================================================== *)
(** ** Numeric types *)
(* ===================================================================== *)

(** Go's [float64]: IEEE-754 binary64, round to nearest even.  A NaN
    carries no payload here; [==] and [!=] cannot observe one. *)
Definition float64 : Type := spec_float.

Module F64.

Local Open Scope Z_scope.

Definition prec : Z := 53.
Definition emax : Z := 1024.

(** The zero value of a [float64] variable ([var actualValue float64]). *)
Definition zero : float64 := S754_zero false.

(** [x + y] *)
Definition add (x y : float64) : float64 := SFadd prec emax x y.

(** [x == y] and [x != y] *)
Definition eqb (x y : float64) : bool := SFeqb x y.
Definition neqb (x y : float64) : bool := negb (SFeqb x y).

(** The float64 nearest to an integer (exact up to [2^53]). *)
Definition of_Z (z : Z) : float64 := binary_normalize prec emax z 0 false.

(** Well-formed binary64 values. *)
Definition valid (x : float64) : bool := valid_binary prec emax x.

(** The value [m * 2^e] of a mantissa and an exponent, in units of the
    smallest positive float64, [2^-1074]. *)
Definition scaled (m e : Z) : Z := m * 2 ^ (e + 1074).

End F64.

(** Go's [uint64] and [int].  The width of [int] depends on the platform. *)
Module GoInt.

Local Open Scope Z_scope.

Inductive IntSize := Int32 | Int64.

Definition bits (w : IntSize) : Z :=
  match w with Int32 => 32 | Int64 => 64 end.

(** Two's complement wrap-around to a signed [bits w]-bit integer. *)
Definition wrap (w : IntSize) (z : Z) : Z :=
  (z + 2 ^ (bits w - 1)) mod 2 ^ bits w - 2 ^ (bits w - 1).

(** [int(x)] for [x : uint64]: keep the low bits, read them as signed. *)
Definition of_uint64 (w : IntSize) (x : Z) : Z := wrap w x.

(** [a + b] on [int] *)
Definition add (w : IntSize) (a b : Z) : Z := wrap w (a + b).

Definition is_int (w : IntSize) (x : Z) : Prop :=
  - 2 ^ (bits w - 1) <= x < 2 ^ (bits w - 1).

End GoInt.

(* ===================================================================== *)
(** ** The [client_model] data read by the code *)
(* ===================================================================== *)

(** Pointer fields are [option]s: [None] is [nil].  The entries of a
    repeated field are not nil. *)
Record dto_LabelPair := {
  lp_Name  : option string;
  lp_Value : option string
}.

Record dto_Counter := { c_Value : option float64 }.
Record dto_Gauge   := { g_Value : option float64 }.
Record dto_Summary := { s_SampleCount : option Z }.

(** [dto.Metric].  Histogram, untyped and timestamp fields are never read by
    [collect.go]; [Other] stands for them. *)
Record dto_Metric := {
  Label   : list dto_LabelPair;
  Gauge   : option dto_Gauge;
  Counter : option dto_Counter;
  Summary : option dto_Summary;
  Other   : bool
}.

(** [new(dto.Metric)] *)
Definition new_Metric : dto_Metric :=
  {| Label := []; Gauge := None; Counter := None; Summary := None;
     Other := false |}.

(** The generated nil-safe getters. *)
Definition Counter_GetValue (c : dto_Counter) : float64 :=
  match c_Value c with Some v => v | None => F64.zero end.

Definition Gauge_GetValue (g : dto_Gauge) : float64 :=
  match g_Value g with Some v => v | None => F64.zero end.

Definition Summary_GetSampleCount (s : dto_Summary) : Z :=
  match s_SampleCount s with Some n => n | None => 0%Z end.

(** [prometheus.Metric]: a handle whose [Write] fills a [dto.Metric] and may
    return an error. *)
Record prometheus_Metric := {
  Write : dto_Metric -> dto_Metric * option string
}.

(** [prometheus.Collector]: [Collect] sends handles into the channel; the
    collector is the sequence of its sends. *)
Record prometheus_Collector := {
  Collect : list prometheus_Metric
}.

(* ===================================================================== *)
(** ** The Reporter *)
(* ===================================================================== *)

(** The texts handed to the reporter, with their arguments. *)
Inductive Message :=
| MsgLabelNotFound (expected : string) (labels : list dto_LabelPair)
| MsgTwoParts
| MsgCollectFailed (err : string)
| MsgValueMismatch (labels : list string) (expected actual : float64)
| MsgCountMismatch (labels : list string) (expected actual : Z)
| MsgNeitherCounterNorGauge
| MsgNotSummary.

(** Calls on the [Reporter], in the order they are made.  [Error] and
    [Errorf] mark the test failed and go on; [Fatal] marks it failed and
    stops the calling goroutine, as [testing.T] does. *)
Inductive Event :=
| EvHelper
| EvLog   (m : Message)
| EvError (m : Message)
| EvFatal (m : Message).

(** A computation against the reporter: the calls made, and the value it
    returned, or [None] when a [Fatal] stopped it. *)
Definition R (A : Type) : Type := (list Event * option A)%type.

Definition ret {A} (a : A) : R A := ([], Some a).

Definition bind {A B} (c : R A) (k : A -> R B) : R B :=
  match c with
  | (tr, Some a) => let (tr', r) := k a in (tr ++ tr', r)
  | (tr, None) => (tr, None)
  end.

Declare Scope reporter_scope.
Delimit Scope reporter_scope with reporter.
Notation "x <- c ;; k" := (bind c (fun x => k))
  (at level 61, c at next level, right associativity) : reporter_scope.
Notation "c ;; k" := (bind c (fun _ => k))
  (at level 61, right associativity) : reporter_scope.
Local Open Scope reporter_scope.

Definition t_Helper : R unit := ([EvHelper], Some tt).
Definition t_Logf (m : Message) : R unit := ([EvLog m], Some tt).
Definition t_Error (m : Message) : R unit := ([EvError m], Some tt).
Definition t_Errorf (m : Message) : R unit := ([EvError m], Some tt).
Definition t_Fatal {A} (m : Message) : R A := ([EvFatal m], None).

Definition trace {A} (c : R A) : list Event := fst c.
Definition outcome {A} (c : R A) : option A := snd c.

Definition is_error (e : Event) : bool :=
  match e with EvError _ => true | _ => false end.
Definition is_fatal (e : Event) : bool :=
  match e with EvFatal _ => true | _ => false end.
Definition is_failure (e : Event) : bool := is_error e || is_fatal e.

Definition is_value_mismatch (e : Event) : bool :=
  match e with EvError (MsgValueMismatch _ _ _) => true | _ => false end.
Definition is_count_mismatch (e : Event) : bool :=
  match e with EvError (MsgCountMismatch _ _ _) => true | _ => false end.

Definition count_events (p : Event -> bool) (tr : list Event) : nat :=
  List.length (filter p tr).

(* ===================================================================== *)
(** ** [strings.SplitN(s, "=", 2)] *)
(* ===================================================================== *)

(** The text before and after the first occurrence of [sep], if any. *)
Fixpoint cut (sep : ascii) (s : string) : option (string * string) :=
  match s with
  | EmptyString => None
  | String c r =>
      if Ascii.eqb c sep then Some (EmptyString, r)
      else match cut sep r with
           | Some (a, b) => Some (String c a, b)
           | None => None
           end
  end.

(** [strings.SplitN(s, string(sep), 2)]: one part when [sep] does not occur,
    else the text before the first occurrence and the text after it. *)
Definition SplitN_2 (s : string) (sep : ascii) : list string :=
  match cut sep s with
  | Some (a, b) => [a; b]
  | None => [s]
  end.

(* ===================================================================== *)
(** ** [collect.go] *)
(* ===================================================================== *)

(** The inner loop of [matches]: is there a label with both fields set and
    equal to the expected name and value? *)
Fixpoint find_label (ls : list dto_LabelPair)
    (expectedName expectedValue : string) : bool :=
  match ls with
  | [] => false
  | l :: ls' =>
      match lp_Name l, lp_Value l with
      | Some n, Some v =>
          if String.eqb n expectedName && String.eqb v expectedValue
          then true
          else find_label ls' expectedName expectedValue
      | _, _ => find_label ls' expectedName expectedValue
      end
  end.

Fixpoint matches (m : dto_Metric) (expectedLabels : list string) : R bool :=
  match expectedLabels with
  | [] => ret true
  | expected :: rest =>
      match SplitN_2 expected "="%char with
      | [expectedName; expectedValue] =>
          if find_label (Label m) expectedName expectedValue
          then matches m rest
          else t_Logf (MsgLabelNotFound expected (Label m)) ;; ret false
      | _ => t_Error MsgTwoParts ;; ret false
      end
  end.

(** [CollectMetric]: the pointer it returns is the one it allocated. *)
Definition CollectMetric (m : prometheus_Metric) : R (option dto_Metric) :=
  let (metric, err) := Write m new_Metric in
  (match err with
   | Some e => t_Errorf (MsgCollectFailed e)
   | None => ret tt
   end) ;;
  ret (Some metric).

(** The body of the goroutine of [CollectMetrics], over the handles received
    from the channel. *)
Fixpoint drain (ms : list prometheus_Metric) (result : list dto_Metric)
    : R (list dto_Metric) :=
  match ms with
  | [] => ret result
  | m :: ms' =>
      metric <- CollectMetric m ;;
      drain ms' (match metric with
                 | Some x => result ++ [x]
                 | None => result
                 end)
  end.

Definition CollectMetrics (metric : prometheus_Collector)
    : R (list dto_Metric) :=
  drain (Collect metric) [].

(** The filtering loop shared by the two assertions. *)
Fixpoint filter_loop (allLabels : list dto_Metric) (labels : list string)
    (filteredLabels : list dto_Metric) : R (list dto_Metric) :=
  match allLabels with
  | [] => ret filteredLabels
  | m :: rest =>
      b <- matches m labels ;;
      filter_loop rest labels
        (if b then filteredLabels ++ [m] else filteredLabels)
  end.

(** The aggregation loop of [AssertEquals]. *)
Fixpoint sum_loop (filteredLabels : list dto_Metric) (actualValue : float64)
    : R float64 :=
  match filteredLabels with
  | [] => ret actualValue
  | m :: rest =>
      match Counter m, Gauge m with
      | Some c, _ => sum_loop rest (F64.add actualValue (Counter_GetValue c))
      | None, Some g => sum_loop rest (F64.add actualValue (Gauge_GetValue g))
      | None, None => t_Fatal MsgNeitherCounterNorGauge
      end
  end.

Definition AssertEquals (expected : float64) (metric : prometheus_Collector)
    (labels : list string) : R unit :=
  t_Helper ;;
  allLabels <- CollectMetrics metric ;;
  filteredLabels <- filter_loop allLabels labels [] ;;
  actualValue <- sum_loop filteredLabels F64.zero ;;
  if F64.neqb expected actualValue
  then t_Errorf (MsgValueMismatch labels expected actualValue)
  else ret tt.

Section SummarySampleCount.

(** The width of [int] on the platform. *)
Variable w : GoInt.IntSize.

(** The aggregation loop of [AssertSummarySampleCount]. *)
Fixpoint count_loop (filteredLabels : list dto_Metric) (actualValue : Z)
    : R Z :=
  match filteredLabels with
  | [] => ret actualValue
  | m :: rest =>
      match Summary m with
      | None => t_Fatal MsgNotSummary
      | Some s =>
          count_loop rest
            (GoInt.add w actualValue
               (GoInt.of_uint64 w (Summary_GetSampleCount s)))
      end
  end.

Definition AssertSummarySampleCount (expected : Z)
    (metric : prometheus_Collector) (labels : list string) : R unit :=
  t_Helper ;;
  allLabels <- CollectMetrics metric ;;
  filteredLabels <- filter_loop allLabels labels [] ;;
  actualValue <- count_loop filteredLabels 0%Z ;;
  if negb (expected =? actualValue)%Z
  then t_Errorf (MsgCountMismatch labels expected actualValue)
  else ret tt.

End SummarySampleCount.

(** [GetMetric]: the loop returns from inside at the first match. *)
Fixpoint first_match (metrics : list dto_Metric) (expectedLabels : list string)
    : R (option dto_Metric) :=
  match metrics with
  | [] => ret None
  | m :: rest =>
      b <- matches m expectedLabels ;;
      if b then ret (Some m) else first_match rest expectedLabels
  end.

Definition GetMetric (metric : prometheus_Collector)
    (expectedLabels : list string) : R (option dto_Metric) :=
  metrics <- CollectMetrics metric ;;
  first_match metrics expectedLabels.

(* ===================================================================== *)
(** ** The channel handoff of [CollectMetrics] *)
(* ===================================================================== *)

(** [CollectMetrics] runs [metric.Collect(metrics)] in the calling goroutine
    and the conversion loop in a second one.  [metrics] is unbuffered: a send
    completes when the worker receives.  [done] has a buffer of one. *)

(** Where the calling goroutine stands. *)
Inductive MainPC :=
| MCollecting (pending : list prometheus_Metric)
| MWaiting
| MReturned (result : list dto_Metric).

(** Where the worker goroutine stands. *)
Inductive WorkerPC :=
| WReceiving
| WConverting (m : prometheus_Metric)
| WExited.

Record Handoff := {
  h_main   : MainPC;
  h_worker : WorkerPC;
  h_closed : bool;
  h_done   : bool;
  h_result : list dto_Metric;
  h_log    : list Event
}.

(** One move of either goroutine; the scheduler picks which. *)
Inductive Action :=
| ASend      (* a send of [Collect] meets the receive of [range metrics] *)
| AConvert   (* the worker runs [CollectMetric] and appends *)
| AClose     (* [Collect] has returned; [close(metrics)] *)
| ASignal    (* the worker sees the channel closed; [done <- true] *)
| AReturn.   (* [<-done], [return result] *)

Definition step (a : Action) (s : Handoff) : option Handoff :=
  match a with
  | ASend =>
      match h_main s, h_worker s with
      | MCollecting (m :: rest), WReceiving =>
          Some {| h_main := MCollecting rest; h_worker := WConverting m;
                  h_closed := h_closed s; h_done := h_done s;
                  h_result := h_result s; h_log := h_log s |}
      | _, _ => None
      end
  | AConvert =>
      match h_worker s with
      | WConverting m =>
          match CollectMetric m with
          | (tr, Some metric) =>
              Some {| h_main := h_main s; h_worker := WReceiving;
                      h_closed := h_closed s; h_done := h_done s;
                      h_result := match metric with
                                  | Some x => h_result s ++ [x]
                                  | None => h_result s
                                  end;
                      h_log := h_log s ++ tr |}
          | (_, None) => None
          end
      | _ => None
      end
  | AClose =>
      match h_main s with
      | MCollecting [] =>
          Some {| h_main := MWaiting; h_worker := h_worker s;
                  h_closed := true; h_done := h_done s;
                  h_result := h_result s; h_log := h_log s |}
      | _ => None
      end
  | ASignal =>
      match h_worker s with
      | WReceiving =>
          if h_closed s
          then Some {| h_main := h_main s; h_worker := WExited;
                       h_closed := true; h_done := true;
                       h_result := h_result s; h_log := h_log s |}
          else None
      | _ => None
      end
  | AReturn =>
      match h_main s with
      | MWaiting =>
          if h_done s
          then Some {| h_main := MReturned (h_result s);
                       h_worker := h_worker s;
                       h_closed := h_closed s; h_done := false;
                       h_result := h_result s; h_log := h_log s |}
          else None
      | _ => None
      end
  end.

(** A run under a schedule; [None] when the schedule asks for a move that is
    not enabled. *)
Fixpoint run (sched : list Action) (s : Handoff) : option Handoff :=
  match sched with
  | [] => Some s
  | a :: sched' =>
      match step a s with
      | Some s' => run sched' s'
      | None => None
      end
  end.

Definition handoff_init (metric : prometheus_Collector) : Handoff :=
  {| h_main := MCollecting (Collect metric); h_worker := WReceiving;
     h_closed := false; h_done := false; h_result := []; h_log := [] |}.

(** The schedule in which every send is followed at once by its conversion. *)
Definition lockstep (metric : prometheus_Collector) : list Action :=
  flat_map (fun _ => [ASend; AConvert]) (Collect metric)
  ++ [AClose; ASignal; AReturn].

(** Handles received and not yet converted, handles not yet sent. *)
Definition inflight (s : Handoff) : list prometheus_Metric :=
  match h_worker s with WConverting m => [m] | _ => [] end.
Definition unsent (s : Handoff) : list prometheus_Metric :=
  match h_main s with MCollecting p => p | _ => [] end.

(** Moves left before the call has returned. *)
Definition moves_left (s : Handoff) : nat :=
  2 * List.length (unsent s) + List.length (inflight s)
  + (if h_closed s then 0 else 1)
  + (match h_worker s with WExited => 0 | _ => 1 end)
  + (match h_main s with MReturned _ => 0 | _ => 1 end).

(** A goroutine can move. *)
Definition enabled (s : Handoff) : Prop :=
  exists a s', step a s = Some s'.

(* ===================================================================== *)
(** ** Vocabulary of the statements *)
(* ===================================================================== *)

(** What [Write] leaves in a fresh [dto.Metric], and whether it failed. *)
Definition decode (h : prometheus_Metric) : dto_Metric :=
  fst (Write h new_Metric).
Definition decode_fails (h : prometheus_Metric) : bool :=
  match snd (Write h new_Metric) with Some _ => true | None => false end.
Definition decode_report (h : prometheus_Metric) : list Event :=
  match snd (Write h new_Metric) with
  | Some e => [EvError (MsgCollectFailed e)]
  | None => []
  end.

(** The samples of a collector, one per pushed handle, in push order. *)
Definition samples (metric : prometheus_Collector) : list dto_Metric :=
  map decode (Collect metric).

(** The reports of the decoding stage. *)
Definition collect_reports (metric : prometheus_Collector) : list Event :=
  flat_map decode_report (Collect metric).

(** The verdict of [matches], and its reports over a list of samples. *)
Definition matchesb (m : dto_Metric) (labels : list string) : bool :=
  match outcome (matches m labels) with
  | Some true => true
  | _ => false
  end.
Definition matches_reports (ms : list dto_Metric) (labels : list string)
    : list Event :=
  flat_map (fun m => trace (matches m labels)) ms.

(** The samples of a collector that match a filter, in push order. *)
Definition matching (metric : prometheus_Collector) (labels : list string)
    : list dto_Metric :=
  filter (fun m => matchesb m labels) (samples metric).

(** Everything reported before the aggregation loop of an assertion. *)
Definition pipeline_reports (metric : prometheus_Collector)
    (labels : list string) : list Event :=
  EvHelper :: collect_reports metric
  ++ matches_reports (samples metric) labels.

(** The samples [GetMetric] looks at: up to and including the first match. *)
Fixpoint scanned (ms : list dto_Metric) (labels : list string)
    : list dto_Metric :=
  match ms with
  | [] => []
  | m :: rest => m :: (if matchesb m labels then [] else scanned rest labels)
  end.

(** Payload predicates and the number an assertion adds for a sample. *)
Definition has_value (m : dto_Metric) : bool :=
  match Counter m, Gauge m with
  | None, None => false
  | _, _ => true
  end.
Definition value_of (m : dto_Metric) : float64 :=
  match Counter m, Gauge m with
  | Some c, _ => Counter_GetValue c
  | None, Some g => Gauge_GetValue g
  | None, None => F64.zero
  end.
Definition has_summary (m : dto_Metric) : bool :=
  match Summary m with Some _ => true | None => false end.
Definition sample_count_of (m : dto_Metric) : Z :=
  match Summary m with
  | Some s => Summary_GetSampleCount s
  | None => 0%Z
  end.

(** Left-to-right float64 sum, from the zero value. *)
Definition f64_sum (vs : list float64) : float64 :=
  fold_left F64.add vs F64.zero.

(** The sum of a list of integers, without wrap-around. *)
Definition Zsum (ns : list Z) : Z := fold_right Z.add 0%Z ns.

(** Left-to-right [int] sum of converted sample counts. *)
Definition int_sum (w : GoInt.IntSize) (ns : list Z) : Z :=
  fold_left (fun acc n => GoInt.add w acc (GoInt.of_uint64 w n)) ns 0%Z.

(** Filter entries and labels. *)
Definition contains_eq (e : string) : bool :=
  existsb (Ascii.eqb "="%char) (list_ascii_of_string e).
Definition well_formed (labels : list string) : bool :=
  forallb contains_eq labels.

(** [e] is [name], then the first ['='] of [e], then [value]. *)
Definition split_at_first_eq (e name value : string) : Prop :=
  e = String.append name (String "="%char value)
  /\ contains_eq name = false.

(** Some label of the sample has both fields set, equal to the pair. *)
Definition has_label (m : dto_Metric) (name value : string) : Prop :=
  exists l, In l (Label m)
            /\ lp_Name l = Some name /\ lp_Value l = Some value.

(** A label with both fields present. *)
Definition complete (l : dto_LabelPair) : bool :=
  match lp_Name l, lp_Value l with
  | Some _, Some _ => true
  | _, _ => false
  end.
Definition drop_incomplete (m : dto_Metric) : dto_Metric :=
  {| Label := filter complete (Label m); Gauge := Gauge m;
     Counter := Counter m; Summary := Summary m; Other := Other m |}.

(** A filter entry is satisfied by the sample. *)
Definition entry_satisfied (m : dto_Metric) (e : string) : bool :=
  matchesb m [e].

(** The filter entry that asks for a name and a value. *)
Definition entry_of (name value : string) : string :=
  String.append name (String "="%char value).

(** What a failed match reports about the entry it stopped at. *)
Definition entry_report (m : dto_Metric) (e : string) : Event :=
  if contains_eq e
  then EvLog (MsgLabelNotFound e (Label m))
  else EvError MsgTwoParts.

(** Every decode of the collector succeeds. *)
Definition decodes_ok (metric : prometheus_Collector) : bool :=
  forallb (fun h => negb (decode_fails h)) (Collect metric).

(** What holds of every state the handoff of a collector can reach: the
    samples and reports so far, followed by those of the handles in flight
    and not yet sent, are those of the whole collector; the channel is closed
    once [Collect] is over; the worker exits only after the close, signals
    when it exits, and the caller returns the result of that moment. *)
Definition handoff_inv (metric : prometheus_Collector) (s : Handoff) : Prop :=
  h_result s ++ map decode (inflight s ++ unsent s) = samples metric
  /\ h_log s ++ flat_map decode_report (inflight s ++ unsent s)
     = collect_reports metric
  /\ h_closed s = match h_main s with MCollecting _ => false | _ => true end
  /\ (h_worker s = WExited ->
      h_closed s = true
      /\ (h_done s = true \/ exists result, h_main s = MReturned result))
  /\ (h_done s = true -> h_worker s = WExited)
  /\ (forall result, h_main s = MReturned result ->
      result = h_result s /\ h_worker s = WExited).

(* ===================================================================== *)
(** ** Concrete inputs *)
(* ===================================================================== *)

Definition label (name value : string) : dto_LabelPair :=
  {| lp_Name := Some name; lp_Value := Some value |}.

Definition counter_sample (ls : list dto_LabelPair) (v : float64)
    : dto_Metric :=
  {| Label := ls; Gauge := None;
     Counter := Some {| c_Value := Some v |}; Summary := None;
     Other := false |}.

Definition summary_sample (ls : list dto_LabelPair) (n : Z) : dto_Metric :=
  {| Label := ls; Gauge := None; Counter := None;
     Summary := Some {| s_SampleCount := Some n |}; Other := false |}.

Definition untyped_sample (ls : list dto_LabelPair) : dto_Metric :=
  {| Label := ls; Gauge := None; Counter := None; Summary := None;
     Other := true |}.

(** A handle whose [Write] stores the sample and succeeds. *)
Definition handle_of (m : dto_Metric) : prometheus_Metric :=
  {| Write := fun _ => (m, None) |}.

(** A handle whose [Write] fails without touching its argument, as
    [prometheus.NewInvalidMetric] does. *)
Definition invalid_handle (err : string) : prometheus_Metric :=
  {| Write := fun out => (out, Some err) |}.

Definition collector_of (ms : list dto_Metric) : prometheus_Collector :=
  {| Collect := map handle_of ms |}.

(** Two counters, [{method:GET}] at 3 and [{method:POST}] at 2. *)
Definition requests : prometheus_Collector :=
  collector_of [counter_sample [label "method" "GET"] (F64.of_Z 3);
                counter_sample [label "method" "POST"] (F64.of_Z 2)].

(** One summary with sample count 7 and label [{op:write}]. *)
Definition durations : prometheus_Collector :=
  collector_of [summary_sample [label "op" "write"] 7].

(** One handle, whose decode fails. *)
Definition broken : prometheus_Collector :=
  {| Collect := [invalid_handle "boom"] |}.

(** A counter [{method:GET}] at 3, then a handle whose decode fails. *)
Definition half_broken : prometheus_Collector :=
  {| Collect := [handle_of (counter_sample [label "method" "GET"]
                              (F64.of_Z 3));
                 invalid_handle "boom"] |}.

(** Counters at [2^53], 1 and 1, and the same three in another order. *)
Definition big_first : list dto_Metric :=
  [counter_sample [] (F64.of_Z (2 ^ 53));
   counter_sample [] (F64.of_Z 1);
   counter_sample [] (F64.of_Z 1)].
Definition big_last : list dto_Metric :=
  [counter_sample [] (F64.of_Z 1);
   counter_sample [] (F64.of_Z 1);
   counter_sample [] (F64.of_Z (2 ^ 53))].

(* ===================================================================== *)
(** ** The reporter monad *)
(* ===================================================================== *)

Lemma bind_ret_l {A B} (a : A) (k : A -> R B) : bind (ret a) k = k a.
Proof. unfold bind, ret. destruct (k a). reflexivity. Qed.

Lemma bind_value {A B} (tr : list Event) (a : A) (k : A -> R B) :
  bind (tr, Some a) k = (tr ++ trace (k a), outcome (k a)).
Proof. unfold bind, trace, outcome. destruct (k a). reflexivity. Qed.

Lemma bind_abort {A B} (tr : list Event) (k : A -> R B) :
  bind (tr, None) k = (tr, None).
Proof. reflexivity. Qed.

Lemma R_eta {A} (c : R A) : c = (trace c, outcome c).
Proof. destruct c. reflexivity. Qed.

(* ===================================================================== *)
(** ** Splitting a filter entry *)
(* ===================================================================== *)

Lemma cut_some sep s a b :
  cut sep s = Some (a, b) ->
  s = String.append a (String sep b)
  /\ existsb (Ascii.eqb sep) (list_ascii_of_string a) = false.
Proof.
  revert a b. induction s as [|c r IH]; intros a b H; simpl in H.
  - discriminate.
  - destruct (Ascii.eqb c sep) eqn:E.
    + apply Ascii.eqb_eq in E. subst c. inversion H; subst. auto.
    + destruct (cut sep r) as [[a' b']|] eqn:Hr; [|discriminate].
      inversion H; subst. destruct (IH a' b eq_refl) as [-> Hn].
      split; [reflexivity|]. simpl.
      rewrite Ascii.eqb_sym, E. exact Hn.
Qed.

Lemma cut_none sep s :
  cut sep s = None <->
  existsb (Ascii.eqb sep) (list_ascii_of_string s) = false.
Proof.
  induction s as [|c r IH]; simpl.
  - tauto.
  - rewrite (Ascii.eqb_sym sep c).
    destruct (Ascii.eqb c sep); simpl.
    + split; discriminate.
    + destruct (cut sep r) as [[a b]|].
      * split; [discriminate|]. intros H. apply IH in H. discriminate.
      * rewrite <- IH. tauto.
Qed.

Lemma cut_append sep a b :
  existsb (Ascii.eqb sep) (list_ascii_of_string a) = false ->
  cut sep (String.append a (String sep b)) = Some (a, b).
Proof.
  induction a as [|c r IH]; simpl; intros H.
  - rewrite Ascii.eqb_refl. reflexivity.
  - apply orb_false_iff in H as [Hc Hr].
    rewrite Ascii.eqb_sym, Hc, (IH Hr). reflexivity.
Qed.

(** An entry with an ['='] splits in exactly one way. *)
Lemma split_at_first_eq_cut e name value :
  split_at_first_eq e name value <-> cut "="%char e = Some (name, value).
Proof.
  unfold split_at_first_eq, contains_eq. split.
  - intros [-> H]. apply cut_append. exact H.
  - intros H. apply cut_some in H. exact H.
Qed.

Lemma contains_eq_cut e :
  contains_eq e = true <-> exists name value, cut "="%char e = Some (name, value).
Proof.
  unfold contains_eq. split.
  - intros H. destruct (cut "="%char e) as [[a b]|] eqn:E.
    + eauto.
    + apply cut_none in E. congruence.
  - intros (a & b & H).
    destruct (existsb (Ascii.eqb "="%char) (list_ascii_of_string e)) eqn:E;
      [reflexivity|].
    apply cut_none in E. congruence.
Qed.

Lemma SplitN_2_two e :
  contains_eq e = true ->
  exists name value,
    SplitN_2 e "="%char = [name; value] /\ split_at_first_eq e name value.
Proof.
  intros H. apply contains_eq_cut in H as (a & b & H).
  exists a, b. unfold SplitN_2. rewrite H. split; [reflexivity|].
  apply split_at_first_eq_cut. exact H.
Qed.

Lemma SplitN_2_one e :
  contains_eq e = false -> SplitN_2 e "="%char = [e].
Proof.
  intros H. apply cut_none in H. unfold SplitN_2. rewrite H. reflexivity.
Qed.

(* ===================================================================== *)
(** ** [matches] *)
(* ===================================================================== *)

Lemma find_label_true ls name value :
  find_label ls name value = true <->
  exists l, In l ls /\ lp_Name l = Some name /\ lp_Value l = Some value.
Proof.
  induction ls as [|l ls IH]; simpl.
  - split; [discriminate | intros (l & [] & _)].
  - destruct (lp_Name l) as [n|] eqn:Hn, (lp_Value l) as [v|] eqn:Hv.
    + destruct (String.eqb n name && String.eqb v value) eqn:E.
      * split; [intros _ | reflexivity].
        apply andb_true_iff in E as [E1 E2].
        apply String.eqb_eq in E1, E2. subst. exists l. auto.
      * rewrite IH. split.
        -- intros (l' & Hin & H1 & H2). exists l'. auto.
        -- intros (l' & [<- | Hin] & H1 & H2).
           ++ rewrite Hn in H1. rewrite Hv in H2.
              inversion H1; inversion H2; subst.
              rewrite !String.eqb_refl in E. discriminate.
           ++ exists l'. auto.
    + rewrite IH. split.
      * intros (l' & Hin & H1 & H2). exists l'. auto.
      * intros (l' & [<- | Hin] & H1 & H2); [congruence|]. exists l'. auto.
    + rewrite IH. split.
      * intros (l' & Hin & H1 & H2). exists l'. auto.
      * intros (l' & [<- | Hin] & H1 & H2); [congruence|]. exists l'. auto.
    + rewrite IH. split.
      * intros (l' & Hin & H1 & H2). exists l'. auto.
      * intros (l' & [<- | Hin] & H1 & H2); [congruence|]. exists l'. auto.
Qed.

Lemma find_label_complete ls name value :
  find_label (filter complete ls) name value = find_label ls name value.
Proof.
  induction ls as [|l ls IH]; simpl; [reflexivity|].
  unfold complete at 1.
  destruct (lp_Name l) as [n|] eqn:Hn, (lp_Value l) as [v|] eqn:Hv;
    simpl; rewrite ?Hn, ?Hv, IH; reflexivity.
Qed.

(** [matches] always returns: it never calls [Fatal]. *)
Lemma matches_returns m labels :
  outcome (matches m labels) = Some (matchesb m labels).
Proof.
  unfold matchesb.
  induction labels as [|e rest IH]; simpl; [reflexivity|].
  destruct (SplitN_2 e "="%char) as [|a [|b [|c l]]]; try reflexivity.
  destruct (find_label (Label m) a b); [exact IH | reflexivity].
Qed.

Lemma matches_eta m labels :
  matches m labels = (trace (matches m labels), Some (matchesb m labels)).
Proof. rewrite <- matches_returns. apply R_eta. Qed.

Lemma matchesb_nil m : matchesb m [] = true.
Proof. reflexivity. Qed.

Lemma matchesb_cons_wf m e rest name value :
  SplitN_2 e "="%char = [name; value] ->
  matchesb m (e :: rest) = find_label (Label m) name value && matchesb m rest.
Proof.
  intros H. unfold matchesb. simpl. rewrite H.
  destruct (find_label (Label m) name value); reflexivity.
Qed.

Lemma matchesb_cons_bad m e rest :
  contains_eq e = false -> matchesb m (e :: rest) = false.
Proof.
  intros H. unfold matchesb. simpl. rewrite (SplitN_2_one _ H). reflexivity.
Qed.

Lemma matchesb_cons m e rest :
  matchesb m (e :: rest) = entry_satisfied m e && matchesb m rest.
Proof.
  unfold entry_satisfied.
  destruct (contains_eq e) eqn:E.
  - destruct (SplitN_2_two _ E) as (a & b & H & _).
    rewrite !(matchesb_cons_wf _ _ _ _ _ H), matchesb_nil, andb_true_r.
    reflexivity.
  - rewrite !(matchesb_cons_bad _ _ _ E). reflexivity.
Qed.

Lemma matchesb_app m pre post :
  matchesb m (pre ++ post) = matchesb m pre && matchesb m post.
Proof.
  induction pre as [|e pre IH]; simpl; [reflexivity|].
  rewrite !(matchesb_cons m e), IH, andb_assoc. reflexivity.
Qed.

Lemma entry_satisfied_iff m e :
  contains_eq e = true ->
  entry_satisfied m e = true <->
  exists name value, split_at_first_eq e name value /\ has_label m name value.
Proof.
  intros E. destruct (SplitN_2_two _ E) as (a & b & H & Hs).
  unfold entry_satisfied.
  rewrite (matchesb_cons_wf _ _ _ _ _ H), matchesb_nil, andb_true_r.
  rewrite find_label_true. unfold has_label. split.
  - intros Hl. exists a, b. auto.
  - intros (a' & b' & Hs' & Hl).
    apply split_at_first_eq_cut in Hs, Hs'.
    rewrite Hs in Hs'. inversion Hs'; subst. exact Hl.
Qed.

Lemma matchesb_forallb m labels :
  matchesb m labels = forallb (entry_satisfied m) labels.
Proof.
  induction labels as [|e rest IH]; [reflexivity|].
  rewrite matchesb_cons, IH. reflexivity.
Qed.

Lemma matchesb_drop_incomplete m labels :
  matchesb (drop_incomplete m) labels = matchesb m labels.
Proof.
  unfold matchesb.
  induction labels as [|e rest IH]; simpl; [reflexivity|].
  destruct (SplitN_2 e "="%char) as [|a [|b [|c l]]]; try reflexivity.
  rewrite find_label_complete.
  destruct (find_label (Label m) a b); [exact IH | reflexivity].
Qed.

(** With a well-formed filter [matches] reports no error, only logs. *)
Lemma matches_wf_no_failure m labels :
  well_formed labels = true ->
  filter is_failure (trace (matches m labels)) = [].
Proof.
  induction labels as [|e rest IH]; simpl; intros H; [reflexivity|].
  apply andb_true_iff in H as [He Hr].
  destruct (SplitN_2_two _ He) as (a & b & -> & _).
  destruct (find_label (Label m) a b); [exact (IH Hr) | reflexivity].
Qed.

(** [matches] never reports fatally. *)
Lemma matches_no_fatal m labels :
  filter is_fatal (trace (matches m labels)) = [].
Proof.
  induction labels as [|e rest IH]; simpl; [reflexivity|].
  destruct (SplitN_2 e "="%char) as [|a [|b [|c l]]]; try reflexivity.
  destruct (find_label (Label m) a b); [exact IH | reflexivity].
Qed.

(** [matches] walks the filter from the left and stops at the first entry
    that is malformed or not satisfied. *)
Lemma matches_app_true m pre post :
  matchesb m pre = true -> matches m (pre ++ post) = matches m post.
Proof.
  unfold matchesb.
  induction pre as [|e pre IH]; simpl; [reflexivity|].
  destruct (SplitN_2 e "="%char) as [|a [|b [|c l]]]; try discriminate.
  destruct (find_label (Label m) a b); [exact IH | discriminate].
Qed.

Lemma matches_app_false m pre post :
  matchesb m pre = false -> matches m (pre ++ post) = matches m pre.
Proof.
  unfold matchesb.
  induction pre as [|e pre IH]; simpl; [discriminate|].
  destruct (SplitN_2 e "="%char) as [|a [|b [|c l]]]; try reflexivity.
  destruct (find_label (Label m) a b); [exact IH | reflexivity].
Qed.

Lemma matches_malformed_head m bad rest :
  contains_eq bad = false ->
  matches m (bad :: rest) = ([EvError MsgTwoParts], Some false).
Proof. intros H. simpl. rewrite (SplitN_2_one _ H). reflexivity. Qed.

(** C2: for a filter whose entries all contain an ['='], [matches] returns
    true exactly when every entry, split at its first ['='] into a name and a
    value, is carried by some label of the sample with both fields present
    and equal to them; [matches] always returns true or false; labels with a
    missing name or value play no part in the verdict; and the empty filter
    matches every sample, silently. *)
Theorem matches_iff_every_pair (S : dto_Metric) (F : list string) :
  well_formed F = true ->
  (outcome (matches S F) = Some true <->
   Forall (fun e => exists name value,
                      split_at_first_eq e name value
                      /\ has_label S name value) F)
  /\ (outcome (matches S F) = Some true
      \/ outcome (matches S F) = Some false)
  /\ outcome (matches (drop_incomplete S) F) = outcome (matches S F)
  /\ (forall S' : dto_Metric, matches S' [] = ([], Some true)).
Proof.
  intros WF. repeat split.
  - rewrite matches_returns. intros H. inversion H as [Hb]. clear H.
    rewrite matchesb_forallb in Hb.
    rewrite forallb_forall in Hb. unfold well_formed in WF.
    rewrite forallb_forall in WF.
    apply Forall_forall. intros e He.
    apply entry_satisfied_iff; auto.
  - intros H. rewrite matches_returns. f_equal.
    rewrite matchesb_forallb. apply forallb_forall. intros e He.
    unfold well_formed in WF. rewrite forallb_forall in WF.
    apply entry_satisfied_iff; auto.
    rewrite Forall_forall in H. auto.
  - rewrite matches_returns. destruct (matchesb S F); auto.
  - rewrite !matches_returns, matchesb_drop_incomplete. reflexivity.
Qed.

Lemma matches_iff_every_pair_witness :
  outcome (matches (counter_sample [label "method" "GET"] (F64.of_Z 3))
             ["method=GET"]) = Some true <->
  Forall (fun e => exists name value,
                     split_at_first_eq e name value
                     /\ has_label
                          (counter_sample [label "method" "GET"] (F64.of_Z 3))
                          name value) ["method=GET"].
Proof.
  exact (proj1 (matches_iff_every_pair
                  (counter_sample [label "method" "GET"] (F64.of_Z 3))
                  ["method=GET"] eq_refl)).
Defined.

(** C7, as stated, fails: the filter below has an entry without ['='], yet
    on a sample without labels [matches] stops at the unmatched entry before
    it and reports no error (it only logs the unmatched entry). *)
Lemma matches_malformed_unreached :
  In "bad" ["a=b"; "bad"]
  /\ contains_eq "bad" = false
  /\ matches (untyped_sample []) ["a=b"; "bad"]
     = ([EvLog (MsgLabelNotFound "a=b" [])], Some false)
  /\ filter is_error (trace (matches (untyped_sample []) ["a=b"; "bad"])) = [].
Proof. repeat split; simpl; auto. Qed.

(** C7, amended: a filter with an entry without ['='] never matches,
    whatever the labels of the sample.  When the entries before it are all
    satisfied by the sample, [matches] reports one non-fatal error and
    nothing else; when one of them is not, [matches] stops there and its
    reports are those of the entries before the malformed one.  In both
    cases the entries after the malformed one are not looked at. *)
Theorem matches_malformed_entry (m : dto_Metric) (pre : list string)
    (bad : string) (rest : list string) :
  contains_eq bad = false ->
  outcome (matches m (pre ++ bad :: rest)) = Some false
  /\ (matchesb m pre = true ->
      matches m (pre ++ bad :: rest) = ([EvError MsgTwoParts], Some false))
  /\ (matchesb m pre = false ->
      matches m (pre ++ bad :: rest) = matches m pre)
  /\ (forall rest', matches m (pre ++ bad :: rest')
                    = matches m (pre ++ bad :: rest)).
Proof.
  intros H.
  assert (Hhead : forall r, matches m (pre ++ bad :: r)
                            = if matchesb m pre
                              then ([EvError MsgTwoParts], Some false)
                              else matches m pre).
  { intros r. destruct (matchesb m pre) eqn:E.
    - rewrite (matches_app_true _ _ _ E). apply matches_malformed_head, H.
    - apply matches_app_false, E. }
  repeat split.
  - rewrite matches_returns, matchesb_app, matchesb_cons_bad by exact H.
    rewrite andb_false_r. reflexivity.
  - intros E. rewrite Hhead, E. reflexivity.
  - intros E. rewrite Hhead, E. reflexivity.
  - intros r. rewrite !Hhead. reflexivity.
Qed.

Lemma matches_malformed_entry_witness :
  matches (untyped_sample [label "a" "b"]) (["a=b"] ++ "bad" :: ["c=d"])
  = ([EvError MsgTwoParts], Some false).
Proof.
  exact (proj1 (proj2 (matches_malformed_entry
                         (untyped_sample [label "a" "b"]) ["a=b"] "bad"
                         ["c=d"] eq_refl)) eq_refl).
Defined.

(* ===================================================================== *)
(** ** The collect and filter stages *)
(* ===================================================================== *)

(** [CollectMetric] returns its freshly allocated [dto.Metric] whether or
    not [Write] failed; it is never nil. *)
Lemma CollectMetric_eq h :
  CollectMetric h = (decode_report h, Some (Some (decode h))).
Proof.
  unfold CollectMetric, decode_report, decode.
  destruct (Write h new_Metric) as [metric [e|]]; reflexivity.
Qed.

Lemma drain_eq hs acc :
  drain hs acc = (flat_map decode_report hs, Some (acc ++ map decode hs)).
Proof.
  revert acc. induction hs as [|h hs IH]; intros acc; simpl.
  - rewrite app_nil_r. reflexivity.
  - rewrite CollectMetric_eq, bind_value, IH. unfold trace, outcome. simpl.
    rewrite <- app_assoc. reflexivity.
Qed.

Lemma CollectMetrics_eq c :
  CollectMetrics c = (collect_reports c, Some (samples c)).
Proof. unfold CollectMetrics. rewrite drain_eq. reflexivity. Qed.

Lemma collect_reports_no_fatal c : filter is_fatal (collect_reports c) = [].
Proof.
  unfold collect_reports. induction (Collect c) as [|h hs IH]; simpl; auto.
  rewrite filter_app, IH, app_nil_r. unfold decode_report.
  destruct (snd (Write h new_Metric)); reflexivity.
Qed.

Lemma collect_reports_ok c :
  decodes_ok c = true -> collect_reports c = [].
Proof.
  unfold collect_reports, decodes_ok.
  induction (Collect c) as [|h hs IH]; simpl; auto.
  intros H. apply andb_true_iff in H as [Hh Hs]. rewrite (IH Hs), app_nil_r.
  unfold decode_fails in Hh. unfold decode_report.
  destruct (snd (Write h new_Metric)); [discriminate | reflexivity].
Qed.

Lemma count_decode_errors hs :
  count_events is_error (flat_map decode_report hs)
  = List.length (filter decode_fails hs).
Proof.
  unfold count_events. induction hs as [|h hs IH]; simpl; auto.
  rewrite filter_app, length_app, IH.
  unfold decode_report, decode_fails.
  destruct (snd (Write h new_Metric)); reflexivity.
Qed.

Lemma filter_loop_eq ms labels acc :
  filter_loop ms labels acc
  = (matches_reports ms labels,
     Some (acc ++ filter (fun m => matchesb m labels) ms)).
Proof.
  revert acc. induction ms as [|m ms IH]; intros acc; simpl.
  - rewrite app_nil_r. reflexivity.
  - rewrite (matches_eta m labels), bind_value, IH. unfold trace, outcome.
    simpl. destruct (matchesb m labels); simpl.
    + rewrite <- app_assoc. reflexivity.
    + reflexivity.
Qed.

Lemma matches_reports_no_fatal ms labels :
  filter is_fatal (matches_reports ms labels) = [].
Proof.
  unfold matches_reports. induction ms as [|m ms IH]; simpl; auto.
  rewrite filter_app, IH, matches_no_fatal. reflexivity.
Qed.

Lemma matches_reports_wf ms labels :
  well_formed labels = true ->
  filter is_failure (matches_reports ms labels) = [].
Proof.
  intros WF. unfold matches_reports.
  induction ms as [|m ms IH]; simpl; auto.
  rewrite filter_app, IH, (matches_wf_no_failure _ _ WF). reflexivity.
Qed.

Lemma pipeline_reports_no_fatal c labels :
  filter is_fatal (pipeline_reports c labels) = [].
Proof.
  unfold pipeline_reports. simpl.
  rewrite filter_app, collect_reports_no_fatal, matches_reports_no_fatal.
  reflexivity.
Qed.

Lemma pipeline_reports_clean c labels :
  decodes_ok c = true -> well_formed labels = true ->
  filter is_failure (pipeline_reports c labels) = [].
Proof.
  intros Hd Hw. unfold pipeline_reports. simpl.
  rewrite filter_app, (collect_reports_ok _ Hd), (matches_reports_wf _ _ Hw).
  reflexivity.
Qed.

Lemma pipeline_no_value_mismatch c labels :
  filter is_value_mismatch (pipeline_reports c labels) = [].
Proof.
  unfold pipeline_reports. simpl. rewrite filter_app.
  assert (H1 : filter is_value_mismatch (collect_reports c) = []).
  { unfold collect_reports. induction (Collect c) as [|h hs IH]; simpl; auto.
    rewrite filter_app, IH, app_nil_r. unfold decode_report.
    destruct (snd (Write h new_Metric)); reflexivity. }
  assert (H2 : forall m, filter is_value_mismatch (trace (matches m labels))
                         = []).
  { intros m. induction labels as [|e rest IH]; simpl; [reflexivity|].
    destruct (SplitN_2 e "="%char) as [|a [|b [|x l]]]; try reflexivity.
    destruct (find_label (Label m) a b); [exact IH | reflexivity]. }
  rewrite H1. unfold matches_reports.
  induction (samples c) as [|m ms IH]; simpl; auto.
  rewrite filter_app, H2, IH. reflexivity.
Qed.

Lemma pipeline_no_count_mismatch c labels :
  filter is_count_mismatch (pipeline_reports c labels) = [].
Proof.
  unfold pipeline_reports. simpl. rewrite filter_app.
  assert (H1 : filter is_count_mismatch (collect_reports c) = []).
  { unfold collect_reports. induction (Collect c) as [|h hs IH]; simpl; auto.
    rewrite filter_app, IH, app_nil_r. unfold decode_report.
    destruct (snd (Write h new_Metric)); reflexivity. }
  assert (H2 : forall m, filter is_count_mismatch (trace (matches m labels))
                         = []).
  { intros m. induction labels as [|e rest IH]; simpl; [reflexivity|].
    destruct (SplitN_2 e "="%char) as [|a [|b [|x l]]]; try reflexivity.
    destruct (find_label (Label m) a b); [exact IH | reflexivity]. }
  rewrite H1. unfold matches_reports.
  induction (samples c) as [|m ms IH]; simpl; auto.
  rewrite filter_app, H2, IH. reflexivity.
Qed.

(** The part of an assertion before its aggregation loop. *)
Lemma pipeline_eq {A} c labels (k : list dto_Metric -> R A) :
  (t_Helper ;;
   allLabels <- CollectMetrics c ;;
   filteredLabels <- filter_loop allLabels labels [] ;;
   k filteredLabels)
  = (pipeline_reports c labels ++ trace (k (matching c labels)),
     outcome (k (matching c labels))).
Proof.
  unfold t_Helper. rewrite bind_value, CollectMetrics_eq, bind_value.
  rewrite filter_loop_eq, bind_value. unfold trace, outcome, pipeline_reports.
  simpl. rewrite <- app_assoc. reflexivity.
Qed.

(* ===================================================================== *)
(** ** The aggregation loops *)
(* ===================================================================== *)

Lemma sum_loop_values ms acc :
  forallb has_value ms = true ->
  sum_loop ms acc = ([], Some (fold_left F64.add (map value_of ms) acc)).
Proof.
  revert acc. induction ms as [|m ms IH]; intros acc H; simpl in *.
  - reflexivity.
  - apply andb_true_iff in H as [Hm Hs].
    unfold has_value in Hm. unfold value_of.
    destruct (Counter m) as [c|], (Gauge m) as [g|];
      try discriminate; apply IH; exact Hs.
Qed.

(** The loop stops at the first sample without counter and gauge; what comes
    after it is not looked at. *)
Lemma sum_loop_fatal pre m rest acc :
  forallb has_value pre = true -> has_value m = false ->
  sum_loop (pre ++ m :: rest) acc
  = ([EvFatal MsgNeitherCounterNorGauge], None).
Proof.
  revert acc. induction pre as [|p pre IH]; intros acc Hp Hm; simpl in *.
  - unfold has_value in Hm.
    destruct (Counter m), (Gauge m); try discriminate. reflexivity.
  - apply andb_true_iff in Hp as [Hp Hs]. unfold has_value in Hp.
    destruct (Counter p) as [c|], (Gauge p) as [g|];
      try discriminate; apply IH; assumption.
Qed.

Lemma count_loop_counts w ms acc :
  forallb has_summary ms = true ->
  count_loop w ms acc
  = ([], Some (fold_left (fun a n => GoInt.add w a (GoInt.of_uint64 w n))
                 (map sample_count_of ms) acc)).
Proof.
  revert acc. induction ms as [|m ms IH]; intros acc H; simpl in *.
  - reflexivity.
  - apply andb_true_iff in H as [Hm Hs].
    unfold has_summary in Hm. unfold sample_count_of.
    destruct (Summary m) as [s|]; [|discriminate]. apply IH, Hs.
Qed.

Lemma count_loop_fatal w pre m rest acc :
  forallb has_summary pre = true -> has_summary m = false ->
  count_loop w (pre ++ m :: rest) acc = ([EvFatal MsgNotSummary], None).
Proof.
  revert acc. induction pre as [|p pre IH]; intros acc Hp Hm; simpl in *.
  - unfold has_summary in Hm. destruct (Summary m); [discriminate|].
    reflexivity.
  - apply andb_true_iff in Hp as [Hp Hs]. unfold has_summary in Hp.
    destruct (Summary p) as [s|]; [|discriminate]. apply IH; assumption.
Qed.

(** A list with an element failing [p] splits at the first such element. *)
Lemma first_failing {A} (p : A -> bool) (l : list A) :
  forallb p l = false ->
  exists pre x rest,
    l = pre ++ x :: rest /\ forallb p pre = true /\ p x = false.
Proof.
  induction l as [|a l IH]; simpl; intros H; [discriminate|].
  destruct (p a) eqn:E.
  - destruct (IH H) as (pre & x & rest & -> & Hp & Hx).
    exists (a :: pre), x, rest. simpl. rewrite E. auto.
  - exists [], a, l. auto.
Qed.

(* ===================================================================== *)
(** ** [CollectMetrics]: one sample per handle *)
(* ===================================================================== *)

(** Whatever the decodes do, the result has one sample per pushed handle, and
    one error is reported per failed decode. *)
Lemma CollectMetrics_length c :
  exists result,
    outcome (CollectMetrics c) = Some result
    /\ List.length result = List.length (Collect c)
    /\ count_events is_error (trace (CollectMetrics c))
       = List.length (filter decode_fails (Collect c)).
Proof.
  exists (samples c). rewrite CollectMetrics_eq. unfold outcome, trace. simpl.
  split; [reflexivity|]. split.
  - unfold samples. apply length_map.
  - apply count_decode_errors.
Qed.

(** C1: on a collector that pushes a single handle whose decode fails, the
    failure is reported as a non-fatal error, but the result still holds a
    sample for that handle (the [dto.Metric] that [CollectMetric] allocated
    and returns whether or not [Write] failed): one handle pushed, one decode
    failed, and a result of length 1, not 1 - 1. *)
Theorem CollectMetrics_keeps_failed_decode :
  CollectMetric (invalid_handle "boom")
  = ([EvError (MsgCollectFailed "boom")], Some (Some new_Metric))
  /\ CollectMetrics broken
     = ([EvError (MsgCollectFailed "boom")], Some [new_Metric])
  /\ List.length (Collect broken) = 1
  /\ List.length (filter decode_fails (Collect broken)) = 1
  /\ option_map (@List.length dto_Metric) (outcome (CollectMetrics broken))
     = Some 1
  /\ List.length (Collect broken)
     - List.length (filter decode_fails (Collect broken)) = 0.
Proof. repeat split. Qed.

(* ===================================================================== *)
(** ** [AssertEquals] *)
(* ===================================================================== *)

Lemma AssertEquals_eq expected c labels :
  AssertEquals expected c labels
  = (pipeline_reports c labels
     ++ trace (actualValue <- sum_loop (matching c labels) F64.zero ;;
               if F64.neqb expected actualValue
               then t_Errorf (MsgValueMismatch labels expected actualValue)
               else ret tt),
     outcome (actualValue <- sum_loop (matching c labels) F64.zero ;;
              if F64.neqb expected actualValue
              then t_Errorf (MsgValueMismatch labels expected actualValue)
              else ret tt)).
Proof. unfold AssertEquals. apply pipeline_eq. Qed.

Lemma AssertEquals_values expected c labels :
  forallb has_value (matching c labels) = true ->
  AssertEquals expected c labels
  = (pipeline_reports c labels
     ++ (if F64.eqb expected (f64_sum (map value_of (matching c labels)))
         then []
         else [EvError (MsgValueMismatch labels expected
                          (f64_sum (map value_of (matching c labels))))]),
     Some tt).
Proof.
  intros H. rewrite AssertEquals_eq, (sum_loop_values _ _ H), bind_value.
  unfold F64.neqb, F64.eqb, f64_sum.
  destruct (SFeqb expected _); reflexivity.
Qed.

(** No element passes the test: two ways to say it. *)
Lemma filter_nil_existsb {A} (p : A -> bool) (l : list A) :
  filter p l = [] -> existsb p l = false.
Proof.
  induction l as [|a l IH]; simpl; [reflexivity|].
  destruct (p a); [discriminate | exact IH].
Qed.

(** What an assertion whose matching samples all carry a value reports. *)
Lemma AssertEquals_values_reports expected c labels :
  forallb has_value (matching c labels) = true ->
  existsb is_value_mismatch (trace (AssertEquals expected c labels))
  = negb (F64.eqb expected (f64_sum (map value_of (matching c labels))))
  /\ filter is_fatal (trace (AssertEquals expected c labels)) = [].
Proof.
  intros H. rewrite (AssertEquals_values _ _ _ H). unfold trace. cbn [fst].
  split.
  - rewrite existsb_app.
    rewrite (filter_nil_existsb _ _ (pipeline_no_value_mismatch c labels)). destruct (F64.eqb expected _); reflexivity.
  - rewrite filter_app, pipeline_reports_no_fatal.
    destruct (F64.eqb expected _); reflexivity.
Qed.

(** C3, as stated, fails: on a collector that pushes a counter
    [{method:GET}] at 3 and then a handle whose decode fails, with the filter
    [method=GET] and 3 expected, the only matching sample is the counter and
    the sum equals [expected]; yet a non-fatal error has been reported, that
    of the failed decode.  A malformed filter entry does the same. *)
Lemma AssertEquals_equal_sum_with_error :
  forallb has_value (matching half_broken ["method=GET"]) = true
  /\ F64.eqb (F64.of_Z 3)
       (f64_sum (map value_of (matching half_broken ["method=GET"]))) = true
  /\ AssertEquals (F64.of_Z 3) half_broken ["method=GET"]
     = ([EvHelper; EvError (MsgCollectFailed "boom");
         EvLog (MsgLabelNotFound "method=GET" [])], Some tt)
  /\ existsb is_failure
       (trace (AssertEquals (F64.of_Z 3) half_broken ["method=GET"])) = true
  /\ AssertEquals (F64.of_Z 5) requests ["bad"; "method=GET"]
     = ([EvHelper; EvError MsgTwoParts; EvError MsgTwoParts;
         EvError (MsgValueMismatch ["bad"; "method=GET"] (F64.of_Z 5)
                    F64.zero)], Some tt).
Proof. repeat split. Qed.

(** C3, amended: when every sample matching the filter carries a counter or
    a gauge, [AssertEquals] adds up, from the left, the counter value (if
    present) or else the gauge value of the matching samples, and reports
    the mismatch error exactly when that sum is not equal ([==] on float64,
    no tolerance) to [expected].  It returns without a fatal report.  When
    the sum equals [expected] the assertion reports nothing of its own: its
    reports are those of the collect and filter stages, and nothing is
    reported as a failure if every decode succeeded and every filter entry
    has an ['=']. *)
Theorem AssertEquals_sums_and_compares (expected : float64)
    (c : prometheus_Collector) (labels : list string) :
  forallb has_value (matching c labels) = true ->
  AssertEquals expected c labels
  = (pipeline_reports c labels
     ++ (if F64.eqb expected (f64_sum (map value_of (matching c labels)))
         then []
         else [EvError (MsgValueMismatch labels expected
                          (f64_sum (map value_of (matching c labels))))]),
     Some tt)
  /\ existsb is_value_mismatch (trace (AssertEquals expected c labels))
     = negb (F64.eqb expected (f64_sum (map value_of (matching c labels))))
  /\ filter is_fatal (trace (AssertEquals expected c labels)) = []
  /\ (F64.eqb expected (f64_sum (map value_of (matching c labels))) = true ->
      trace (AssertEquals expected c labels) = pipeline_reports c labels
      /\ (decodes_ok c = true -> well_formed labels = true ->
          filter is_failure (trace (AssertEquals expected c labels)) = [])).
Proof.
  intros H. destruct (AssertEquals_values_reports expected c labels H)
    as [H2 H3].
  split; [exact (AssertEquals_values _ _ _ H)|].
  split; [exact H2|]. split; [exact H3|].
  intros E. rewrite (AssertEquals_values _ _ _ H), E, app_nil_r.
  unfold trace. cbn [fst]. split; [reflexivity|].
  apply pipeline_reports_clean.
Qed.

Lemma AssertEquals_sums_and_compares_witness :
  AssertEquals (F64.of_Z 3) requests ["method=GET"]
  = (pipeline_reports requests ["method=GET"], Some tt)
  /\ AssertEquals (F64.of_Z 5) requests [] = ([EvHelper], Some tt)
  /\ existsb is_value_mismatch
       (trace (AssertEquals (F64.of_Z 1) requests ["method=GET"])) = true.
Proof.
  split; [|split].
  - exact (proj1 (AssertEquals_sums_and_compares (F64.of_Z 3) requests
                    ["method=GET"] eq_refl)).
  - exact (proj1 (AssertEquals_sums_and_compares (F64.of_Z 5) requests
                    [] eq_refl)).
  - exact (proj1 (proj2 (AssertEquals_sums_and_compares (F64.of_Z 1) requests
                           ["method=GET"] eq_refl))).
Defined.

(** C4: if some sample matching the filter carries neither a counter nor a
    gauge, [AssertEquals] reports fatally, once, and stops: the run is
    aborted, its reports are those of the collect and filter stages followed
    by the single fatal one, and no mismatch error is reported.  The fatal
    report is raised at the first such sample of the matching list; the
    samples after it are not looked at. *)
Theorem AssertEquals_fatal_on_first_other (expected : float64)
    (c : prometheus_Collector) (labels : list string) :
  (exists m, In m (matching c labels) /\ has_value m = false) ->
  AssertEquals expected c labels
  = (pipeline_reports c labels ++ [EvFatal MsgNeitherCounterNorGauge], None)
  /\ count_events is_fatal (trace (AssertEquals expected c labels)) = 1
  /\ filter is_value_mismatch (trace (AssertEquals expected c labels)) = []
  /\ exists pre m rest,
       matching c labels = pre ++ m :: rest
       /\ forallb has_value pre = true /\ has_value m = false
       /\ forall rest' acc,
            sum_loop (pre ++ m :: rest') acc
            = ([EvFatal MsgNeitherCounterNorGauge], None).
Proof.
  intros (m0 & Hin & Hm0).
  assert (Hall : forallb has_value (matching c labels) = false).
  { destruct (forallb has_value (matching c labels)) eqn:E; auto.
    rewrite forallb_forall in E. rewrite (E _ Hin) in Hm0. discriminate. }
  destruct (first_failing _ _ Hall) as (pre & m & rest & Hsplit & Hpre & Hm).
  assert (Heq : AssertEquals expected c labels
                = (pipeline_reports c labels
                   ++ [EvFatal MsgNeitherCounterNorGauge], None)).
  { rewrite AssertEquals_eq, Hsplit, (sum_loop_fatal _ _ _ _ Hpre Hm).
    reflexivity. }
  rewrite Heq. unfold trace, count_events. cbn [fst].
  split; [reflexivity|]. split; [|split].
  - rewrite filter_app, pipeline_reports_no_fatal. reflexivity.
  - rewrite filter_app, pipeline_no_value_mismatch. reflexivity.
  - exists pre, m, rest. repeat split; auto.
    intros rest' acc. apply sum_loop_fatal; assumption.
Qed.

Lemma AssertEquals_fatal_on_first_other_witness :
  AssertEquals (F64.of_Z 7) durations ["op=write"]
  = (pipeline_reports durations ["op=write"]
     ++ [EvFatal MsgNeitherCounterNorGauge], None).
Proof.
  apply (AssertEquals_fatal_on_first_other (F64.of_Z 7) durations
           ["op=write"]).
  exists (summary_sample [label "op" "write"] 7).
  split; [left; reflexivity | reflexivity].
Defined.

(** C10, as stated, fails: with the filter [bad] no sample of [requests]
    matches and 0 is expected, yet the call is not silent: [matches] has
    reported the format error, once for each sample.  A failed decode whose
    sample does not match does the same. *)
Lemma AssertEquals_zero_not_silent :
  forallb (fun m => negb (matchesb m ["bad"])) (samples requests) = true
  /\ matching requests ["bad"] = []
  /\ AssertEquals F64.zero requests ["bad"]
     = ([EvHelper; EvError MsgTwoParts; EvError MsgTwoParts], Some tt)
  /\ existsb is_failure (trace (AssertEquals F64.zero requests ["bad"]))
     = true
  /\ matching broken ["a=b"] = []
  /\ AssertEquals F64.zero broken ["a=b"]
     = ([EvHelper; EvError (MsgCollectFailed "boom");
         EvLog (MsgLabelNotFound "a=b" [])], Some tt).
Proof. repeat split. Qed.

(** C10, amended: when no collected sample matches the filter, the
    accumulated value of [AssertEquals] is 0, the mismatch error is reported
    exactly when [expected] is not equal to 0, and nothing fatal is
    reported.  With [expected] at 0 the assertion adds no report of its own,
    no diagnostic of the missing match either: its reports are those of the
    collect and filter stages, and it passes without any failure report if
    every decode succeeded and every filter entry has an ['=']. *)
Theorem AssertEquals_nothing_matches (expected : float64)
    (c : prometheus_Collector) (labels : list string) :
  (forall m, In m (samples c) -> matchesb m labels = false) ->
  outcome (sum_loop (matching c labels) F64.zero) = Some F64.zero
  /\ AssertEquals expected c labels
     = (pipeline_reports c labels
        ++ (if F64.eqb expected F64.zero
            then []
            else [EvError (MsgValueMismatch labels expected F64.zero)]),
        Some tt)
  /\ existsb is_value_mismatch (trace (AssertEquals expected c labels))
     = negb (F64.eqb expected F64.zero)
  /\ filter is_fatal (trace (AssertEquals expected c labels)) = []
  /\ AssertEquals F64.zero c labels = (pipeline_reports c labels, Some tt)
  /\ (F64.eqb expected F64.zero = true ->
      trace (AssertEquals expected c labels) = pipeline_reports c labels
      /\ (decodes_ok c = true -> well_formed labels = true ->
          filter is_failure (trace (AssertEquals expected c labels)) = [])).
Proof.
  intros Hnone.
  assert (Hm : matching c labels = []).
  { unfold matching. induction (samples c) as [|m ms IH]; simpl; auto.
    rewrite (Hnone m (or_introl eq_refl)). apply IH.
    intros x Hx. apply Hnone. right. exact Hx. }
  assert (Hv : forallb has_value (matching c labels) = true)
    by (rewrite Hm; reflexivity).
  pose proof (AssertEquals_values expected c labels Hv) as H1.
  destruct (AssertEquals_values_reports expected c labels Hv) as [H2 H3].
  rewrite Hm in H1, H2. change (f64_sum (map value_of [])) with F64.zero in *.
  split; [rewrite Hm; reflexivity|].
  split; [exact H1|]. split; [exact H2|]. split; [exact H3|]. split.
  - rewrite (AssertEquals_values _ _ _ Hv), Hm. simpl. rewrite app_nil_r.
    reflexivity.
  - intros E. rewrite H1, E, app_nil_r. unfold trace. cbn [fst].
    split; [reflexivity|]. apply pipeline_reports_clean.
Qed.

Lemma AssertEquals_nothing_matches_witness :
  AssertEquals F64.zero requests ["code=200"]
  = (pipeline_reports requests ["code=200"], Some tt)
  /\ filter is_failure (trace (AssertEquals F64.zero requests ["code=200"]))
     = [].
Proof.
  pose proof (AssertEquals_nothing_matches F64.zero requests ["code=200"])
    as H.
  assert (Hnone : forall m, In m (samples requests) ->
                            matchesb m ["code=200"] = false)
    by (intros m [<- | [<- | []]]; reflexivity).
  destruct (H Hnone) as (_ & _ & _ & _ & H5 & H6).
  split; [exact H5|]. exact (proj2 (H6 eq_refl) eq_refl eq_refl).
Defined.

(* ===================================================================== *)
(** ** [AssertSummarySampleCount] *)
(* ===================================================================== *)

Lemma bits_pos w : (0 < GoInt.bits w)%Z.
Proof. destruct w; reflexivity. Qed.

Lemma wrap_congr w a b :
  ((a - b) mod 2 ^ GoInt.bits w = 0)%Z -> GoInt.wrap w a = GoInt.wrap w b.
Proof.
  intros H. unfold GoInt.wrap. f_equal.
  assert (Hm : (2 ^ GoInt.bits w > 0)%Z)
    by (apply Z.lt_gt, Z.pow_pos_nonneg; [lia | pose proof (bits_pos w); lia]).
  apply Z.mod_divide in H; [|lia]. destruct H as [k Hk].
  replace (a + 2 ^ (GoInt.bits w - 1))%Z
    with (b + 2 ^ (GoInt.bits w - 1) + k * 2 ^ GoInt.bits w)%Z by lia.
  apply Z.mod_add. lia.
Qed.

Lemma wrap_diff w z : ((GoInt.wrap w z - z) mod 2 ^ GoInt.bits w = 0)%Z.
Proof.
  unfold GoInt.wrap.
  assert (Hm : (2 ^ GoInt.bits w > 0)%Z)
    by (apply Z.lt_gt, Z.pow_pos_nonneg; [lia | pose proof (bits_pos w); lia]).
  pose proof (Z.div_mod (z + 2 ^ (GoInt.bits w - 1)) (2 ^ GoInt.bits w)) as D.
  replace ((z + 2 ^ (GoInt.bits w - 1)) mod 2 ^ GoInt.bits w
           - 2 ^ (GoInt.bits w - 1) - z)%Z
    with (- ((z + 2 ^ (GoInt.bits w - 1)) / 2 ^ GoInt.bits w)
          * 2 ^ GoInt.bits w)%Z by lia.
  apply Z.mod_mul. lia.
Qed.

Lemma wrap_add_wrap w a b :
  GoInt.wrap w (GoInt.wrap w a + GoInt.wrap w b) = GoInt.wrap w (a + b).
Proof.
  apply wrap_congr.
  assert (Hm : (2 ^ GoInt.bits w > 0)%Z)
    by (apply Z.lt_gt, Z.pow_pos_nonneg; [lia | pose proof (bits_pos w); lia]).
  pose proof (wrap_diff w a) as Ha. pose proof (wrap_diff w b) as Hb.
  apply Z.mod_divide in Ha, Hb; try lia.
  destruct Ha as [ka Ha], Hb as [kb Hb].
  replace (GoInt.wrap w a + GoInt.wrap w b - (a + b))%Z
    with ((ka + kb) * 2 ^ GoInt.bits w)%Z by lia.
  apply Z.mod_mul. lia.
Qed.

Lemma wrap_is_int w z : GoInt.is_int w (GoInt.wrap w z).
Proof.
  unfold GoInt.is_int, GoInt.wrap.
  assert (H2 : (2 ^ GoInt.bits w = 2 * 2 ^ (GoInt.bits w - 1))%Z).
  { rewrite <- Z.pow_succ_r by (pose proof (bits_pos w); lia).
    f_equal. lia. }
  assert (Hp : (0 < 2 ^ (GoInt.bits w - 1))%Z)
    by (apply Z.pow_pos_nonneg; [lia | pose proof (bits_pos w); lia]).
  pose proof (Z.mod_pos_bound (z + 2 ^ (GoInt.bits w - 1))
                (2 ^ GoInt.bits w)). lia.
Qed.

Lemma wrap_id w z : GoInt.is_int w z -> GoInt.wrap w z = z.
Proof.
  unfold GoInt.is_int, GoInt.wrap. intros H.
  assert (H2 : (2 ^ GoInt.bits w = 2 * 2 ^ (GoInt.bits w - 1))%Z).
  { rewrite <- Z.pow_succ_r by (pose proof (bits_pos w); lia).
    f_equal. lia. }
  rewrite Z.mod_small; lia.
Qed.

(** The [int] sum is the exact sum, wrapped once. *)
Lemma int_sum_wrap w ns : int_sum w ns = GoInt.wrap w (Zsum ns).
Proof.
  unfold int_sum.
  assert (G : forall a,
             fold_left (fun acc n => GoInt.add w acc (GoInt.of_uint64 w n))
               ns (GoInt.wrap w a)
             = GoInt.wrap w (a + Zsum ns)).
  { induction ns as [|n ns IH]; intros a; simpl.
    - f_equal. lia.
    - unfold GoInt.add at 2, GoInt.of_uint64 at 2.
      rewrite wrap_add_wrap, IH. f_equal. lia. }
  specialize (G 0%Z). rewrite wrap_id in G.
  - exact G.
  - unfold GoInt.is_int.
    assert (0 < 2 ^ (GoInt.bits w - 1))%Z
      by (apply Z.pow_pos_nonneg; [lia | pose proof (bits_pos w); lia]).
    lia.
Qed.

Lemma AssertSummarySampleCount_eq w expected c labels :
  AssertSummarySampleCount w expected c labels
  = (pipeline_reports c labels
     ++ trace (actualValue <- count_loop w (matching c labels) 0%Z ;;
               if negb (expected =? actualValue)%Z
               then t_Errorf (MsgCountMismatch labels expected actualValue)
               else ret tt),
     outcome (actualValue <- count_loop w (matching c labels) 0%Z ;;
              if negb (expected =? actualValue)%Z
              then t_Errorf (MsgCountMismatch labels expected actualValue)
              else ret tt)).
Proof. unfold AssertSummarySampleCount. apply pipeline_eq. Qed.



(* ===================================================================== *)
(** ** [GetMetric] *)
(* ===================================================================== *)

Lemma first_match_eq ms labels :
  first_match ms labels
  = (matches_reports (scanned ms labels) labels,
     Some (find (fun m => matchesb m labels) ms)).
Proof.
  induction ms as [|m ms IH]; simpl; [reflexivity|].
  rewrite (matches_eta m labels), bind_value.
  destruct (matchesb m labels); unfold trace, outcome; simpl.
  - rewrite app_nil_r. reflexivity.
  - rewrite IH. reflexivity.
Qed.

Lemma GetMetric_eq c labels :
  GetMetric c labels
  = (collect_reports c ++ matches_reports (scanned (samples c) labels) labels,
     Some (find (fun m => matchesb m labels) (samples c))).
Proof.
  unfold GetMetric. rewrite CollectMetrics_eq, bind_value, first_match_eq.
  reflexivity.
Qed.

Lemma find_first {A} (p : A -> bool) (l : list A) (x : A) :
  find p l = Some x <->
  exists pre post,
    l = pre ++ x :: post /\ p x = true
    /\ forallb (fun y => negb (p y)) pre = true.
Proof.
  induction l as [|a l IH]; simpl.
  - split; [discriminate|]. intros (pre & post & H & _).
    destruct pre; discriminate.
  - destruct (p a) eqn:E.
    + split.
      * intros H. inversion H; subst. exists [], l. auto.
      * intros ([|b pre] & post & H & Hx & Hpre); inversion H; subst; auto.
        simpl in Hpre. rewrite E in Hpre. discriminate.
    + rewrite IH. split.
      * intros (pre & post & -> & Hx & Hpre). exists (a :: pre), post.
        simpl. rewrite E. auto.
      * intros ([|b pre] & post & H & Hx & Hpre); inversion H; subst.
        -- congruence.
        -- simpl in Hpre. apply andb_true_iff in Hpre as [_ Hpre].
           exists pre, post. auto.
Qed.

Lemma find_none_forallb {A} (p : A -> bool) (l : list A) :
  find p l = None <-> forallb (fun y => negb (p y)) l = true.
Proof.
  induction l as [|a l IH]; simpl; [tauto|].
  destruct (p a); simpl; [split; discriminate | exact IH].
Qed.

Lemma scanned_no_match ms labels :
  forallb (fun y => negb (matchesb y labels)) ms = true ->
  scanned ms labels = ms.
Proof.
  induction ms as [|m ms IH]; simpl; [reflexivity|].
  intros H. apply andb_true_iff in H as [Hm Hs].
  destruct (matchesb m labels); [discriminate|]. rewrite (IH Hs). reflexivity.
Qed.

(** C6, as stated, fails: with the filter [bad] no sample of [requests]
    matches and [GetMetric] returns nil, yet errors have been reported
    through the reporter: the format error of [matches], once for each
    sample.  A failed decode whose sample does not match does the same. *)
Lemma GetMetric_absent_with_errors :
  GetMetric requests ["bad"]
  = ([EvError MsgTwoParts; EvError MsgTwoParts], Some None)
  /\ existsb is_error (trace (GetMetric requests ["bad"])) = true
  /\ GetMetric broken ["a=b"]
     = ([EvError (MsgCollectFailed "boom");
         EvLog (MsgLabelNotFound "a=b" [])], Some None).
Proof. repeat split. Qed.

(** C6, amended: [GetMetric] returns (never aborts), and what it returns is
    the first sample, in the order of [CollectMetrics], that [matches]
    accepts, or nil when [matches] accepts none.  Returning nil adds no
    report: the reports of the call are those of [CollectMetrics] followed
    by those of the calls of [matches] it made, so that a nil result comes
    with no error report if every decode succeeded and every filter entry
    has an ['=']. *)
Theorem GetMetric_first_match (c : prometheus_Collector)
    (labels : list string) :
  (exists r, outcome (GetMetric c labels) = Some r)
  /\ (forall m, outcome (GetMetric c labels) = Some (Some m) <->
        exists pre post,
          samples c = pre ++ m :: post /\ matchesb m labels = true
          /\ forallb (fun y => negb (matchesb y labels)) pre = true)
  /\ (outcome (GetMetric c labels) = Some None <->
      forall m, In m (samples c) -> matchesb m labels = false)
  /\ trace (GetMetric c labels)
     = trace (CollectMetrics c)
       ++ matches_reports (scanned (samples c) labels) labels
  /\ (outcome (GetMetric c labels) = Some None ->
      trace (GetMetric c labels)
      = trace (CollectMetrics c) ++ matches_reports (samples c) labels
      /\ (decodes_ok c = true -> well_formed labels = true ->
          filter is_failure (trace (GetMetric c labels)) = [])).
Proof.
  rewrite GetMetric_eq, CollectMetrics_eq. unfold outcome, trace.
  cbn [fst snd]. split; [eauto|]. split; [|split; [|split]].
  - intros m. split.
    + intros H. inversion H as [Hf]. apply find_first in Hf. exact Hf.
    + intros H. f_equal. apply find_first. exact H.
  - split.
    + intros H. inversion H as [Hf]. apply find_none_forallb in Hf.
      rewrite forallb_forall in Hf. intros m Hm.
      apply negb_true_iff, Hf, Hm.
    + intros H. f_equal. apply find_none_forallb, forallb_forall.
      intros m Hm. apply negb_true_iff, H, Hm.
  - reflexivity.
  - intros H. inversion H as [Hf]. apply find_none_forallb in Hf.
    rewrite (scanned_no_match _ _ Hf). split; [reflexivity|].
    intros Hd Hw. rewrite filter_app, (collect_reports_ok _ Hd).
    apply matches_reports_wf, Hw.
Qed.

Lemma GetMetric_first_match_witness :
  trace (GetMetric requests ["code=200"])
  = trace (CollectMetrics requests)
    ++ matches_reports (samples requests) ["code=200"]
  /\ filter is_failure (trace (GetMetric requests ["code=200"])) = [].
Proof.
  pose proof (proj2 (proj2 (proj2 (proj2
                (GetMetric_first_match requests ["code=200"])))) eq_refl)
    as [H1 H2].
  split; [exact H1 | exact (H2 eq_refl eq_refl)].
Defined.

(* ===================================================================== *)
(** ** The handoff of [CollectMetrics] *)
(* ===================================================================== *)

Lemma handoff_init_inv c : handoff_inv c (handoff_init c).
Proof.
  unfold handoff_inv, handoff_init, inflight, unsent; simpl.
  repeat split; try discriminate; intros; discriminate.
Qed.

(** Closes the side conditions of the invariant after a move. *)
Ltac handoff_side :=
  simpl in *; rewrite <- ?app_assoc; simpl;
  repeat split; auto; try discriminate;
  try solve [intuition (try discriminate; try congruence; eauto)];
  try solve [intros r Hr; inversion Hr; subst;
             intuition (try discriminate; try congruence; eauto)].

Lemma step_inv c a s s' :
  handoff_inv c s -> step a s = Some s' -> handoff_inv c s'.
Proof.
  destruct s as [main worker closed done result log].
  unfold handoff_inv, inflight, unsent. simpl.
  intros (Hres & Hlog & Hcl & Hex & Hdn & Hret) Hstep.
  destruct a; simpl in Hstep.
  - (* ASend *)
    destruct main as [[|m rest]| |r]; try discriminate.
    destruct worker; try discriminate.
    inversion Hstep; subst; clear Hstep. handoff_side.
  - (* AConvert *)
    destruct worker as [|m|]; try discriminate.
    rewrite CollectMetric_eq in Hstep.
    inversion Hstep; subst; clear Hstep. handoff_side.
    all: match goal with
         | H : _ = MReturned _ |- _ =>
             destruct (Hret _ H) as [_ Hw]; discriminate Hw
         end.
  - (* AClose *)
    destruct main as [[|m rest]| |r]; try discriminate.
    inversion Hstep; subst; clear Hstep. handoff_side.
  - (* ASignal *)
    destruct worker; try discriminate.
    destruct closed; try discriminate.
    inversion Hstep; subst; clear Hstep. handoff_side.
    apply (Hret _ H).
  - (* AReturn *)
    destruct main as [p| |r]; try discriminate.
    destruct done; try discriminate.
    inversion Hstep; subst; clear Hstep. handoff_side.
Qed.

Lemma run_inv c sched : forall s s',
  handoff_inv c s -> run sched s = Some s' -> handoff_inv c s'.
Proof.
  induction sched as [|a sched IH]; intros s s' Hinv Hrun; simpl in Hrun.
  - inversion Hrun; subst. exact Hinv.
  - destruct (step a s) as [s1|] eqn:E; [|discriminate].
    apply (IH s1 s'); [apply (step_inv c a s s1 Hinv E) | exact Hrun].
Qed.

(** Each move brings the return one move closer. *)
Lemma step_moves_left c a s s' :
  handoff_inv c s -> step a s = Some s' ->
  S (moves_left s') = moves_left s.
Proof.
  destruct s as [main worker closed done result log].
  unfold handoff_inv, moves_left, inflight, unsent. simpl.
  intros (Hres & Hlog & Hcl & Hex & Hdn & Hret) Hstep.
  destruct a; simpl in Hstep.
  - destruct main as [[|m rest]| |r]; try discriminate.
    destruct worker; try discriminate.
    inversion Hstep; subst; clear Hstep. simpl. lia.
  - destruct worker as [|m|]; try discriminate.
    rewrite CollectMetric_eq in Hstep.
    inversion Hstep; subst; clear Hstep. simpl. lia.
  - destruct main as [[|m rest]| |r]; try discriminate.
    inversion Hstep; subst; clear Hstep. simpl. lia.
  - destruct worker; try discriminate.
    destruct closed; try discriminate.
    inversion Hstep; subst; clear Hstep. simpl. lia.
  - destruct main as [p| |r]; try discriminate.
    destruct done; try discriminate.
    inversion Hstep; subst; clear Hstep. simpl. lia.
Qed.

Lemma run_moves_left c sched : forall s s',
  handoff_inv c s -> run sched s = Some s' ->
  List.length sched + moves_left s' = moves_left s.
Proof.
  induction sched as [|a sched IH]; intros s s' Hinv Hrun; simpl in Hrun.
  - inversion Hrun; subst. reflexivity.
  - destruct (step a s) as [s1|] eqn:E; [|discriminate].
    pose proof (step_moves_left c a s s1 Hinv E).
    pose proof (IH s1 s' (step_inv c a s s1 Hinv E) Hrun).
    simpl. lia.
Qed.

(** No deadlock: until the caller has returned, some goroutine can move. *)
Lemma handoff_progress c s :
  handoff_inv c s ->
  (exists result, h_main s = MReturned result) \/ enabled s.
Proof.
  destruct s as [main worker closed done result log].
  unfold handoff_inv, enabled, inflight, unsent. simpl.
  intros (Hres & Hlog & Hcl & Hex & Hdn & Hret).
  destruct main as [p| |r]; [| |left; eauto]; right.
  - destruct worker as [|m|].
    + destruct p as [|m rest].
      * exists AClose. simpl. eauto.
      * exists ASend. simpl. eauto.
    + exists AConvert. simpl. rewrite CollectMetric_eq. eauto.
    + destruct (Hex eq_refl) as [Hc _]. congruence.
  - subst closed. destruct worker as [|m|].
    + exists ASignal. simpl. eauto.
    + exists AConvert. simpl. rewrite CollectMetric_eq. eauto.
    + destruct (Hex eq_refl) as [_ [Hd | [r Hr]]]; [|discriminate].
      subst done. exists AReturn. simpl. eauto.
Qed.

(** What a returned call holds. *)
Lemma handoff_returned c s result :
  handoff_inv c s -> h_main s = MReturned result ->
  result = samples c /\ h_log s = collect_reports c
  /\ inflight s = [] /\ unsent s = [] /\ h_worker s = WExited.
Proof.
  destruct s as [main worker closed done res log].
  unfold handoff_inv, inflight, unsent. simpl.
  intros (Hres & Hlog & Hcl & Hex & Hdn & Hret) Hm.
  destruct (Hret _ Hm) as [-> ->]. subst main. simpl in *.
  rewrite app_nil_r in Hres, Hlog. auto.
Qed.

(** The lockstep schedule drives the call to its return. *)
Lemma lockstep_sends sched p : forall result log,
  run (flat_map (fun _ => [ASend; AConvert]) p ++ sched)
    {| h_main := MCollecting p; h_worker := WReceiving; h_closed := false;
       h_done := false; h_result := result; h_log := log |}
  = run sched
      {| h_main := MCollecting []; h_worker := WReceiving; h_closed := false;
         h_done := false; h_result := result ++ map decode p;
         h_log := log ++ flat_map decode_report p |}.
Proof.
  induction p as [|m p IH]; intros result log.
  - simpl. rewrite !app_nil_r. reflexivity.
  - cbn [flat_map app run step h_main h_worker h_closed h_done h_result
         h_log].
    rewrite CollectMetric_eq. rewrite IH. simpl.
    rewrite <- !app_assoc. reflexivity.
Qed.

Lemma lockstep_returns c :
  run (lockstep c) (handoff_init c)
  = Some {| h_main := MReturned (samples c); h_worker := WExited;
            h_closed := true; h_done := false; h_result := samples c;
            h_log := collect_reports c |}.
Proof.
  unfold lockstep, handoff_init. rewrite lockstep_sends. reflexivity.
Qed.

(** C8: the samples [CollectMetrics] returns are the decoded handles of the
    collector, one for each pushed handle and in the order of the pushes.
    Under every interleaving of the collector and the converting goroutine
    the call comes to its return (no deadlock, and within two moves per
    handle plus three), and when it returns every handle has been received
    and converted, the worker has exited, and the result and the reports are
    those of the sequential reading of the loop. *)
Theorem CollectMetrics_insertion_order (c : prometheus_Collector) :
  CollectMetrics c
  = (flat_map decode_report (Collect c), Some (map decode (Collect c)))
  /\ (exists st, run (lockstep c) (handoff_init c) = Some st
                 /\ h_main st = MReturned (map decode (Collect c)))
  /\ (forall sched st,
        run sched (handoff_init c) = Some st ->
        List.length sched + moves_left st = 2 * List.length (Collect c) + 3
        /\ ((exists result, h_main st = MReturned result) \/ enabled st))
  /\ (forall sched st result,
        run sched (handoff_init c) = Some st ->
        h_main st = MReturned result ->
        (h_log st, Some result) = CollectMetrics c
        /\ result = map decode (Collect c)
        /\ inflight st = [] /\ unsent st = [] /\ h_worker st = WExited).
Proof.
  split; [apply CollectMetrics_eq|]. split; [|split].
  - eexists. split; [apply lockstep_returns | reflexivity].
  - intros sched st Hrun.
    pose proof (run_inv c sched _ _ (handoff_init_inv c) Hrun) as Hinv.
    split; [|apply (handoff_progress c), Hinv].
    rewrite (run_moves_left c sched _ _ (handoff_init_inv c) Hrun).
    unfold moves_left, handoff_init, unsent, inflight. simpl. lia.
  - intros sched st result Hrun Hret.
    pose proof (run_inv c sched _ _ (handoff_init_inv c) Hrun) as Hinv.
    destruct (handoff_returned c st result Hinv Hret)
      as (-> & Hlog & Hin & Hun & Hw).
    rewrite CollectMetrics_eq, Hlog. auto.
Qed.

Lemma CollectMetrics_insertion_order_witness :
  run [ASend; AConvert; ASend; AClose; AConvert; ASignal; AReturn]
    (handoff_init requests)
  = Some {| h_main := MReturned (samples requests); h_worker := WExited;
            h_closed := true; h_done := false; h_result := samples requests;
            h_log := [] |}
  /\ samples requests = map decode (Collect requests).
Proof.
  split; [reflexivity|].
  exact (proj1 (proj2 (proj2 (proj2 (proj2
           (CollectMetrics_insertion_order requests)))
           [ASend; AConvert; ASend; AClose; AConvert; ASignal; AReturn]
           _ (samples requests) eq_refl eq_refl))).
Defined.

(* ===================================================================== *)
(** ** float64 sums of integers *)
(* ===================================================================== *)

(** Float64 addition rounds, so it is not associative; on integers whose
    sum stays within [2^53] it does not round.  The lemmas below follow
    [binary_round] through its shifts for such operands. *)

Local Open Scope Z_scope.

Lemma digits2_pos_bounds p :
  2 ^ (Zpos (digits2_pos p) - 1) <= Zpos p < 2 ^ Zpos (digits2_pos p).
Proof.
  induction p as [p IH|p IH|]; cbn [digits2_pos].
  - rewrite Pos2Z.inj_succ.
    replace (Z.succ (Zpos (digits2_pos p)) - 1) with (Zpos (digits2_pos p) - 1 + 1) by lia.
    rewrite Z.pow_succ_r by lia.
    destruct (Z.eq_dec (Zpos (digits2_pos p)) 1) as [E|E].
    + rewrite E in *. simpl in *. lia.
    + rewrite Z.pow_add_r by lia. change (2^1) with 2. lia.
  - rewrite Pos2Z.inj_succ.
    replace (Z.succ (Zpos (digits2_pos p)) - 1) with (Zpos (digits2_pos p) - 1 + 1) by lia.
    rewrite Z.pow_succ_r by lia.
    rewrite Z.pow_add_r by lia. change (2^1) with 2. lia.
  - simpl. lia.
Qed.

Lemma iter_xO_mul m k : Zpos (Pos.iter xO m k) = Zpos m * 2 ^ Zpos k.
Proof.
  induction k as [|k IH] using Pos.peano_ind.
  - simpl. lia.
  - rewrite Pos.iter_succ, Pos2Z.inj_succ, Z.pow_succ_r by lia.
    rewrite Pos2Z.inj_xO, IH. lia.
Qed.

Lemma digits2_pos_iter_xO m k :
  Zpos (digits2_pos (Pos.iter xO m k)) = Zpos (digits2_pos m) + Zpos k.
Proof.
  induction k as [|k IH] using Pos.peano_ind.
  - simpl. lia.
  - rewrite Pos.iter_succ. cbn [digits2_pos].
    rewrite !Pos2Z.inj_succ, IH. lia.
Qed.

Lemma iter_shr_1_exact k : forall q,
  iter_pos shr_1 k
    {| shr_m := Zpos (Pos.iter xO q k); shr_r := false; shr_s := false |}
  = {| shr_m := Zpos q; shr_r := false; shr_s := false |}.
Proof.
  induction k as [k IH|k IH|]; intros q; cbn [iter_pos Pos.iter].
  - cbn [shr_1 orb]. rewrite IH, IH. reflexivity.
  - rewrite IH, IH. reflexivity.
  - reflexivity.
Qed.

Lemma fexp_normal e : -1074 <= e -> fexp F64.prec F64.emax (53 + e) = e.
Proof. intros H. unfold fexp, emin, F64.prec, F64.emax. lia. Qed.

(** A 53-bit mantissa with an exponent in range is already rounded. *)
Lemma binary_round_aux_canonical sx M E :
  Zpos (digits2_pos M) = 53 -> -1074 <= E <= 971 ->
  binary_round_aux F64.prec F64.emax sx (Zpos M) E loc_Exact
  = S754_finite sx M E.
Proof.
  intros HM HE. unfold binary_round_aux, shr_fexp.
  cbn [Zdigits2 shr_record_of_loc]. rewrite HM, fexp_normal by lia.
  rewrite Z.sub_diag. cbn [shr shr_m loc_of_shr_record round_nearest_even
                           Zdigits2 shr_record_of_loc].
  rewrite HM, fexp_normal by lia. rewrite Z.sub_diag. cbn [shr shr_m].
  unfold F64.emax, F64.prec.
  destruct (Z.leb_spec E (1024 - 53)); [reflexivity | lia].
Qed.

(** Trailing zero bits of a longer mantissa are shifted out exactly. *)
Lemma binary_round_aux_shifted sx M E d :
  Zpos (digits2_pos M) = 53 -> -1074 <= E <= 971 ->
  binary_round_aux F64.prec F64.emax sx (Zpos (Pos.iter xO M d))
    (E - Zpos d) loc_Exact
  = S754_finite sx M E.
Proof.
  intros HM HE. unfold binary_round_aux, shr_fexp.
  cbn [Zdigits2 shr_record_of_loc].
  rewrite digits2_pos_iter_xO, HM.
  replace (53 + Zpos d + (E - Zpos d)) with (53 + E) by lia.
  rewrite fexp_normal by lia.
  replace (E - (E - Zpos d)) with (Zpos d) by lia.
  cbn [shr]. rewrite iter_shr_1_exact.
  replace (E - Zpos d + Zpos d) with E by lia.
  cbn [shr_m loc_of_shr_record round_nearest_even Zdigits2
       shr_record_of_loc].
  rewrite HM, fexp_normal by lia. rewrite Z.sub_diag. cbn [shr shr_m].
  unfold F64.emax, F64.prec.
  destruct (Z.leb_spec E (1024 - 53)); [reflexivity | lia].
Qed.

(** Rounding a mantissa and exponent whose value is that of a 53-bit
    mantissa with an exponent in range gives that float. *)
Lemma binary_round_exact sx m e M E :
  Zpos (digits2_pos M) = 53 -> -1074 <= E <= 971 -> -1074 <= e ->
  F64.scaled (Zpos m) e = F64.scaled (Zpos M) E ->
  binary_round F64.prec F64.emax sx m e = S754_finite sx M E.
Proof.
  intros HM HE He Hv. unfold F64.scaled in Hv.
  assert (P : 0 < 2 ^ (E + 1074)) by (apply Z.pow_pos_nonneg; lia).
  assert (Q : 0 < 2 ^ (e + 1074)) by (apply Z.pow_pos_nonneg; lia).
  unfold binary_round.
  destruct (Z.compare_spec e E) as [Heq | Hlt | Hgt].
  - (* same exponent *)
    subst e. apply Z.mul_reg_r in Hv; [|lia]. apply Pos2Z.inj in Hv.
    subst m.
    rewrite HM, (fexp_normal E (proj1 HE)). unfold shl_align. rewrite Z.sub_diag.
    apply binary_round_aux_canonical; assumption.
  - (* the mantissa is longer *)
    destruct (E - e) as [|d|d] eqn:Hd; try lia.
    assert (Hm : m = Pos.iter xO M d).
    { apply Pos2Z.inj. rewrite iter_xO_mul, <- Hd.
      replace (E + 1074) with ((E - e) + (e + 1074)) in Hv by lia.
      rewrite (Z.pow_add_r 2 (E - e) (e + 1074)), Z.mul_assoc in Hv by lia.
      apply Z.mul_reg_r in Hv; [exact Hv | lia]. }
    subst m. rewrite digits2_pos_iter_xO, HM.
    replace (53 + Zpos d + e) with (53 + E) by lia.
    rewrite (fexp_normal E (proj1 HE)). unfold shl_align. rewrite Hd.
    replace e with (E - Zpos d) by lia.
    apply binary_round_aux_shifted; assumption.
  - (* the mantissa is shorter *)
    destruct (e - E) as [|d|d] eqn:Hd; try lia.
    assert (Hm : M = Pos.iter xO m d).
    { apply Pos2Z.inj. rewrite iter_xO_mul, <- Hd.
      replace (e + 1074) with ((e - E) + (E + 1074)) in Hv by lia.
      rewrite (Z.pow_add_r 2 (e - E) (E + 1074)), Z.mul_assoc in Hv by lia.
      apply Z.mul_reg_r in Hv; [symmetry; exact Hv | lia]. }
    assert (Hdig : Zpos (digits2_pos m) + e = 53 + E).
    { rewrite <- HM, Hm, digits2_pos_iter_xO. lia. }
    rewrite Hdig, (fexp_normal E (proj1 HE)). unfold shl_align.
    replace (E - e) with (Zneg d) by lia.
    rewrite <- Hm. apply binary_round_aux_canonical; assumption.
Qed.

Lemma scaled_add x y e :
  F64.scaled (x + y) e = F64.scaled x e + F64.scaled y e.
Proof. unfold F64.scaled. lia. Qed.

Lemma scaled_cond_Zopp s x e :
  F64.scaled (cond_Zopp s x) e = cond_Zopp s (F64.scaled x e).
Proof. unfold F64.scaled, cond_Zopp. destruct s; lia. Qed.

Lemma scaled_sign x e : -1074 <= e -> Z.sgn (F64.scaled x e) = Z.sgn x.
Proof.
  unfold F64.scaled. intros He.
  assert (0 < 2 ^ (e + 1074)) by (apply Z.pow_pos_nonneg; lia).
  rewrite Z.sgn_mul, (Z.sgn_pos (2 ^ (e + 1074))) by assumption. lia.
Qed.

(** Every integer from 1 to [2^53] has a 53-bit mantissa and an exponent. *)
Lemma canonical_exists n :
  Zpos n <= 2 ^ 53 ->
  exists M E,
    Zpos (digits2_pos M) = 53 /\ -52 <= E <= 1
    /\ F64.scaled (Zpos M) E = F64.scaled (Zpos n) 0.
Proof.
  intros Hn. pose proof (digits2_pos_bounds n) as [Hlo Hhi].
  destruct (Z.lt_trichotomy (Zpos (digits2_pos n)) 53) as [Hd | [Hd | Hd]].
  - exists (Pos.iter xO n (Z.to_pos (53 - Zpos (digits2_pos n)))),
      (Zpos (digits2_pos n) - 53).
    split; [|split].
    + rewrite digits2_pos_iter_xO, Z2Pos.id by lia. lia.
    + lia.
    + unfold F64.scaled. rewrite iter_xO_mul, Z2Pos.id by lia.
      rewrite <- Z.mul_assoc, <- Z.pow_add_r by lia. do 2 f_equal. lia.
  - exists n, 0. split; [exact Hd|]. split; [lia | reflexivity].
  - assert (H53 : 2 ^ 53 <= 2 ^ (Zpos (digits2_pos n) - 1))
      by (apply Z.pow_le_mono_r; lia).
    assert (Heq : Zpos n = 2 ^ 53) by lia.
    exists (4503599627370496)%positive, 1.
    split; [reflexivity|]. split; [lia|].
    rewrite Heq. reflexivity.
Qed.

(** A sum that is an integer of magnitude at most [2^53] is not rounded. *)
Lemma binary_normalize_exact s e z :
  -1074 <= e -> F64.scaled s e = F64.scaled z 0 -> Z.abs z <= 2 ^ 53 ->
  binary_normalize F64.prec F64.emax s e false = F64.of_Z z.
Proof.
  intros He Hv Hz. unfold F64.of_Z.
  assert (Hsz : Z.sgn s = Z.sgn z).
  { rewrite <- (scaled_sign s e He), Hv. apply scaled_sign. lia. }
  destruct s as [|p|p], z as [|n|n]; try discriminate Hsz;
    cbn [binary_normalize].
  - reflexivity.
  - destruct (canonical_exists n ltac:(lia)) as (M & E & HM & HE & HME).
    rewrite (binary_round_exact false p e M E), (binary_round_exact false n 0 M E);
      try reflexivity; try lia; congruence.
  - destruct (canonical_exists n ltac:(lia)) as (M & E & HM & HE & HME).
    assert (Hv' : F64.scaled (Zpos p) e = F64.scaled (Zpos n) 0).
    { unfold F64.scaled in *. lia. }
    rewrite (binary_round_exact true p e M E), (binary_round_exact true n 0 M E);
      try reflexivity; try lia; congruence.
Qed.

(** The float64 of a non-zero integer of magnitude at most [2^53]. *)
Lemma of_Z_finite z :
  z <> 0 -> Z.abs z <= 2 ^ 53 ->
  exists M E,
    F64.of_Z z = S754_finite (z <? 0) M E
    /\ -52 <= E <= 1
    /\ F64.scaled (cond_Zopp (z <? 0) (Zpos M)) E = F64.scaled z 0.
Proof.
  intros Hz Hb. unfold F64.of_Z.
  destruct z as [|n|n]; [congruence| |].
  - destruct (canonical_exists n ltac:(lia)) as (M & E & HM & HE & HME).
    exists M, E. cbn [binary_normalize].
    rewrite (binary_round_exact false n 0 M E) by (try lia; congruence).
    auto.
  - destruct (canonical_exists n ltac:(lia)) as (M & E & HM & HE & HME).
    exists M, E. cbn [binary_normalize].
    rewrite (binary_round_exact true n 0 M E) by (try lia; congruence).
    split; [reflexivity|]. split; [exact HE|].
    change (Z.neg n <? 0) with true. cbn [cond_Zopp].
    unfold F64.scaled in *. lia.
Qed.

Lemma shl_align_scaled M E ez :
  ez <= E -> -1074 <= ez ->
  F64.scaled (Zpos (fst (shl_align M E ez))) ez = F64.scaled (Zpos M) E.
Proof.
  intros Hle He. unfold shl_align.
  destruct (ez - E) as [|d|d] eqn:Hd; cbn [fst]; try lia.
  - replace ez with E by lia. reflexivity.
  - unfold F64.scaled. rewrite iter_xO_mul.
    rewrite <- Z.mul_assoc, <- Z.pow_add_r by lia. do 2 f_equal. lia.
Qed.

(** Adding two integers is exact while the sum stays within [2^53]. *)
Lemma add_of_Z a b :
  Z.abs a <= 2 ^ 53 -> Z.abs b <= 2 ^ 53 -> Z.abs (a + b) <= 2 ^ 53 ->
  F64.add (F64.of_Z a) (F64.of_Z b) = F64.of_Z (a + b).
Proof.
  intros Ha Hb Hab. unfold F64.add.
  destruct (Z.eq_dec a 0) as [-> | Na]; destruct (Z.eq_dec b 0) as [-> | Nb].
  - reflexivity.
  - destruct (of_Z_finite b Nb Hb) as (M & E & HB & _).
    rewrite Z.add_0_l, HB. reflexivity.
  - destruct (of_Z_finite a Na Ha) as (M & E & HA & _).
    rewrite Z.add_0_r, HA. reflexivity.
  - destruct (of_Z_finite a Na Ha) as (Ma & Ea & HA & HEa & Hva).
    destruct (of_Z_finite b Nb Hb) as (Mb & Eb & HB & HEb & Hvb).
    rewrite HA, HB. cbn [SFadd].
    apply binary_normalize_exact; [lia | | exact Hab].
    rewrite scaled_add, !scaled_cond_Zopp.
    rewrite !shl_align_scaled by lia.
    rewrite <- !scaled_cond_Zopp, Hva, Hvb, <- scaled_add. reflexivity.
Qed.

Lemma f64_sum_of_Z zs : forall acc,
  Z.abs acc + Zsum (map Z.abs zs) <= 2 ^ 53 ->
  fold_left F64.add (map F64.of_Z zs) (F64.of_Z acc)
  = F64.of_Z (acc + Zsum zs).
Proof.
  assert (Hnn : forall l, 0 <= Zsum (map Z.abs l)).
  { induction l as [|x l IH]; simpl; lia. }
  induction zs as [|z zs IH]; intros acc H; simpl in *.
  - f_equal. lia.
  - pose proof (Hnn zs). rewrite add_of_Z by lia.
    rewrite IH by lia. f_equal. lia.
Qed.

(* ===================================================================== *)
(** ** The order of the samples in [AssertEquals] *)
(* ===================================================================== *)

Lemma Zsum_Permutation l l' : Permutation l l' -> Zsum l = Zsum l'.
Proof. induction 1; simpl; lia. Qed.

Lemma forallb_Permutation {A} (p : A -> bool) l l' :
  Permutation l l' -> forallb p l = true -> forallb p l' = true.
Proof.
  intros HP H. rewrite forallb_forall in *. intros x Hx.
  apply H. apply (Permutation_in x (Permutation_sym HP) Hx).
Qed.

(** The samples of [big_first] and [big_last] carry well-formed float64
    counters and are the same up to order. *)
Lemma big_first_last_Permutation : Permutation big_first big_last.
Proof.
  unfold big_first, big_last.
  eapply perm_trans; [apply perm_swap|]. apply perm_skip, perm_swap.
Qed.

(** C9, as stated, fails: three counters at [2^53], 1 and 1 add up, from the
    left, to [2^53] in that order (each [+ 1] is rounded away) and to
    [2^53 + 2] when the two small ones come first; the same assertion passes
    on one order and reports a mismatch on the other. *)
Lemma sum_loop_order_dependent :
  Permutation big_first big_last
  /\ forallb has_value big_first = true
  /\ forallb (fun m => F64.valid (value_of m)) big_first = true
  /\ sum_loop big_first F64.zero = ([], Some (F64.of_Z (2 ^ 53)))
  /\ sum_loop big_last F64.zero = ([], Some (F64.of_Z (2 ^ 53 + 2)))
  /\ sum_loop big_first F64.zero <> sum_loop big_last F64.zero
  /\ AssertEquals (F64.of_Z (2 ^ 53 + 2)) (collector_of big_last) []
     = ([EvHelper], Some tt)
  /\ AssertEquals (F64.of_Z (2 ^ 53 + 2)) (collector_of big_first) []
     = ([EvHelper;
         EvError (MsgValueMismatch [] (F64.of_Z (2 ^ 53 + 2))
                    (F64.of_Z (2 ^ 53)))],
        Some tt).
Proof.
  split; [apply big_first_last_Permutation|].
  repeat split; try (vm_compute; reflexivity).
  vm_compute. discriminate.
Qed.

(** C9, amended: when the values of the matching counter and gauge samples
    are integers whose magnitudes add up to at most [2^53], the aggregation
    loop of [AssertEquals] returns the same accumulated value on every
    permutation of the list, namely the float64 of the integer sum. *)
Theorem sum_loop_order_independent_exact (ms ms' : list dto_Metric)
    (zs : list Z) :
  forallb has_value ms = true ->
  map value_of ms = map F64.of_Z zs ->
  Zsum (map Z.abs zs) <= 2 ^ 53 ->
  Permutation ms ms' ->
  sum_loop ms F64.zero = ([], Some (F64.of_Z (Zsum zs)))
  /\ sum_loop ms' F64.zero = sum_loop ms F64.zero.
Proof.
  intros Hv Hz Hb HP.
  assert (Hms : sum_loop ms F64.zero = ([], Some (F64.of_Z (Zsum zs)))).
  { rewrite (sum_loop_values _ _ Hv), Hz.
    change F64.zero with (F64.of_Z 0).
    rewrite f64_sum_of_Z by (simpl; lia). reflexivity. }
  split; [exact Hms|]. rewrite Hms.
  pose proof (forallb_Permutation _ _ _ HP Hv) as Hv'.
  assert (HPv : Permutation (map value_of ms') (map F64.of_Z zs)).
  { rewrite <- Hz. apply Permutation_map, Permutation_sym, HP. }
  apply Permutation_map_inv in HPv as (zs' & Hz' & HPz).
  rewrite (sum_loop_values _ _ Hv'), Hz'.
  change F64.zero with (F64.of_Z 0).
  rewrite f64_sum_of_Z.
  - rewrite (Zsum_Permutation _ _ HPz). reflexivity.
  - rewrite <- (Zsum_Permutation _ _ (Permutation_map Z.abs HPz)).
    simpl. lia.
Qed.

Lemma sum_loop_order_independent_exact_witness :
  sum_loop [counter_sample [label "method" "POST"] (F64.of_Z 2);
            counter_sample [label "method" "GET"] (F64.of_Z 3)] F64.zero
  = sum_loop [counter_sample [label "method" "GET"] (F64.of_Z 3);
              counter_sample [label "method" "POST"] (F64.of_Z 2)] F64.zero.
Proof.
  refine (proj2 (sum_loop_order_independent_exact
                   [counter_sample [label "method" "GET"] (F64.of_Z 3);
                    counter_sample [label "method" "POST"] (F64.of_Z 2)]
                   _ [3; 2] eq_refl eq_refl _ (perm_swap _ _ _))).
  vm_compute. discriminate.
Defined.

(* ===================================================================== *)
(** ** More on [matches] *)
(* ===================================================================== *)

Local Close Scope Z_scope.

Lemma entry_satisfied_wf m e name value :
  SplitN_2 e "="%char = [name; value] ->
  entry_satisfied m e = find_label (Label m) name value.
Proof.
  intros H. unfold entry_satisfied.
  rewrite (matchesb_cons_wf _ _ _ _ _ H), matchesb_nil, andb_true_r.
  reflexivity.
Qed.

Lemma matches_head_matched m e rest :
  entry_satisfied m e = true -> matches m (e :: rest) = matches m rest.
Proof.
  intros H. change (e :: rest) with ([e] ++ rest).
  apply matches_app_true. exact H.
Qed.

Lemma matches_head_unmatched m e rest :
  entry_satisfied m e = false ->
  matches m (e :: rest) = ([entry_report m e], Some false).
Proof.
  intros H. unfold entry_report. destruct (contains_eq e) eqn:E.
  - destruct (SplitN_2_two _ E) as (a & b & Hs & _).
    rewrite (entry_satisfied_wf _ _ _ _ Hs) in H.
    simpl. rewrite Hs, H. reflexivity.
  - apply matches_malformed_head, E.
Qed.

(** X1: a successful match reports nothing.  A failed match reports exactly
    one message, about the first entry that is not satisfied, and the
    entries before it are all satisfied: a log naming the entry and the
    labels of the sample when the entry has an ['='], the format error when
    it has none. *)
Theorem matches_reports_once (m : dto_Metric) (F : list string) :
  (outcome (matches m F) = Some true -> trace (matches m F) = [])
  /\ (outcome (matches m F) = Some false ->
      exists pre e rest,
        F = pre ++ e :: rest
        /\ outcome (matches m pre) = Some true
        /\ outcome (matches m [e]) = Some false
        /\ trace (matches m F) = [entry_report m e]).
Proof.
  induction F as [|e F [IHt IHf]].
  - split; [reflexivity | discriminate].
  - destruct (entry_satisfied m e) eqn:E.
    + rewrite (matches_head_matched _ _ _ E). split; [exact IHt|].
      intros H. destruct (IHf H) as (pre & x & rest & -> & Hp & Hx & Ht).
      exists (e :: pre), x, rest. repeat split; auto.
      rewrite (matches_head_matched _ _ _ E). exact Hp.
    + rewrite (matches_head_unmatched _ _ _ E). split; [discriminate|].
      intros _. exists [], e, F. repeat split.
      rewrite matches_returns. f_equal. exact E.
Qed.

Lemma matches_reports_once_witness :
  trace (matches (counter_sample [label "method" "GET"] F64.zero)
           ["method=GET"]) = []
  /\ exists pre e rest,
       ["method=GET"; "code=200"; "bad"] = pre ++ e :: rest
       /\ outcome (matches (counter_sample [label "method" "GET"] F64.zero)
                     pre) = Some true
       /\ outcome (matches (counter_sample [label "method" "GET"] F64.zero)
                     [e]) = Some false
       /\ trace (matches (counter_sample [label "method" "GET"] F64.zero)
                   ["method=GET"; "code=200"; "bad"])
          = [entry_report (counter_sample [label "method" "GET"] F64.zero) e].
Proof.
  split.
  - exact (proj1 (matches_reports_once
                    (counter_sample [label "method" "GET"] F64.zero)
                    ["method=GET"]) eq_refl).
  - exact (proj2 (matches_reports_once
                    (counter_sample [label "method" "GET"] F64.zero)
                    ["method=GET"; "code=200"; "bad"]) eq_refl).
Defined.

(** X2: the verdict of [matches] depends on the filter only as a set of
    entries: two filters with the same entries, in any order and with any
    repetitions, accept the same samples. *)
Theorem matches_filter_as_set (m : dto_Metric) (F G : list string) :
  (forall e, In e F <-> In e G) ->
  outcome (matches m F) = outcome (matches m G).
Proof.
  intros H. rewrite !matches_returns, !matchesb_forallb. f_equal.
  destruct (forallb (entry_satisfied m) G) eqn:EG.
  - rewrite forallb_forall in *. intros e He. apply EG, H, He.
  - destruct (forallb (entry_satisfied m) F) eqn:EF; [|reflexivity].
    rewrite <- EG. symmetry. rewrite forallb_forall in *.
    intros e He. apply EF, H, He.
Qed.

Lemma matches_filter_as_set_witness :
  outcome (matches (counter_sample [label "a" "b"; label "c" "d"] F64.zero)
             ["a=b"; "c=d"])
  = outcome (matches (counter_sample [label "a" "b"; label "c" "d"] F64.zero)
               ["c=d"; "a=b"; "c=d"]).
Proof.
  apply (matches_filter_as_set
           (counter_sample [label "a" "b"; label "c" "d"] F64.zero)
           ["a=b"; "c=d"] ["c=d"; "a=b"; "c=d"]).
  intros e. simpl. tauto.
Defined.

Lemma find_label_incl ls ls' name value :
  incl ls ls' -> find_label ls name value = true ->
  find_label ls' name value = true.
Proof.
  intros Hi H. apply find_label_true in H as (l & Hl & Hn & Hv).
  apply find_label_true. exists l. auto.
Qed.

Lemma entry_satisfied_incl m m' e :
  incl (Label m) (Label m') ->
  entry_satisfied m e = true -> entry_satisfied m' e = true.
Proof.
  intros Hi. destruct (contains_eq e) eqn:E.
  - destruct (SplitN_2_two _ E) as (a & b & Hs & _).
    rewrite !(entry_satisfied_wf _ _ _ _ Hs). apply find_label_incl, Hi.
  - unfold entry_satisfied. rewrite (matchesb_cons_bad _ _ _ E).
    discriminate.
Qed.

(** X3: labels a filter does not ask for are ignored: a sample that carries
    all the labels of a matching sample, and whatever others, matches too. *)
Theorem matches_more_labels (m m' : dto_Metric) (F : list string) :
  incl (Label m) (Label m') ->
  outcome (matches m F) = Some true ->
  outcome (matches m' F) = Some true.
Proof.
  intros Hi. rewrite !matches_returns, !matchesb_forallb.
  intros H. inversion H as [Hb]. rewrite Hb. f_equal.
  rewrite forallb_forall in *. intros e He.
  apply (entry_satisfied_incl m m' e Hi), Hb, He.
Qed.

Lemma matches_more_labels_witness :
  outcome (matches
             (counter_sample [label "code" "200"; label "method" "GET"]
                F64.zero)
             ["method=GET"]) = Some true.
Proof.
  apply (matches_more_labels
           (counter_sample [label "method" "GET"] F64.zero)
           (counter_sample [label "code" "200"; label "method" "GET"]
              F64.zero)
           ["method=GET"]).
  - intros l [<- | []]. right. left. reflexivity.
  - reflexivity.
Defined.

(** X4: joining two filters asks for both: a sample matches [F ++ G] exactly
    when it matches [F] and matches [G], and the samples of a collector that
    match [F ++ G] are those matching [G] among those matching [F], in the
    same order. *)
Theorem matches_filter_append (c : prometheus_Collector) (m : dto_Metric)
    (F G : list string) :
  (outcome (matches m (F ++ G)) = Some true <->
   outcome (matches m F) = Some true /\ outcome (matches m G) = Some true)
  /\ matching c (F ++ G) = filter (fun x => matchesb x G) (matching c F).
Proof.
  split.
  - rewrite !matches_returns, matchesb_app.
    destruct (matchesb m F), (matchesb m G); simpl; split;
      try tauto; try discriminate; intros [H1 H2]; discriminate.
  - unfold matching. induction (samples c) as [|x xs IH]; simpl; auto.
    rewrite matchesb_app.
    destruct (matchesb x F); simpl; [|exact IH].
    destruct (matchesb x G); simpl; rewrite IH; reflexivity.
Qed.

Lemma matches_filter_append_witness :
  outcome (matches (counter_sample [label "a" "b"; label "c" "d"] F64.zero)
             (["a=b"] ++ ["c=d"])) = Some true.
Proof.
  apply (proj1 (matches_filter_append requests
                  (counter_sample [label "a" "b"; label "c" "d"] F64.zero)
                  ["a=b"] ["c=d"])).
  split; reflexivity.
Defined.

(** X5: a sample is selected by each of its own labels: for a label with
    both fields set whose name has no ['='], the entry [name=value] alone
    matches the sample and reports nothing, also when the value itself
    contains ['=']. *)
Theorem matches_own_label (m : dto_Metric) (l : dto_LabelPair)
    (name value : string) :
  In l (Label m) -> lp_Name l = Some name -> lp_Value l = Some value ->
  contains_eq name = false ->
  matches m [entry_of name value] = ([], Some true).
Proof.
  intros Hl Hn Hv Hc. unfold entry_of. simpl.
  unfold SplitN_2. rewrite (cut_append _ _ _ Hc).
  assert (Hf : find_label (Label m) name value = true)
    by (apply find_label_true; exists l; auto).
  rewrite Hf. reflexivity.
Qed.

Lemma matches_own_label_witness :
  matches (counter_sample [label "query" "a=b"] F64.zero)
    [entry_of "query" "a=b"] = ([], Some true).
Proof.
  apply (matches_own_label (counter_sample [label "query" "a=b"] F64.zero)
           (label "query" "a=b") "query" "a=b");
    try reflexivity.
  left. reflexivity.
Defined.

(** X6: a label whose name contains an ['='] cannot be asked for: an entry
    is split at its first ['='], so the name it asks for has none.  A sample
    all of whose label names contain an ['='] matches no filter but the
    empty one. *)
Theorem matches_never_selects_eq_name (m : dto_Metric) (F : list string) :
  (forall l name, In l (Label m) -> lp_Name l = Some name ->
                  contains_eq name = true) ->
  F <> [] ->
  outcome (matches m F) = Some false.
Proof.
  intros Hall HF. rewrite matches_returns. f_equal.
  destruct F as [|e F]; [congruence|].
  rewrite matchesb_cons.
  assert (He : entry_satisfied m e = false).
  { destruct (entry_satisfied m e) eqn:E; [|reflexivity].
    destruct (contains_eq e) eqn:Ec.
    - apply (entry_satisfied_iff m e Ec) in E
        as (name & value & [_ Hname] & (l & Hl & Hn & _)).
      rewrite (Hall l name Hl Hn) in Hname. discriminate.
    - unfold entry_satisfied in E.
      rewrite (matchesb_cons_bad _ _ _ Ec) in E. discriminate. }
  rewrite He. reflexivity.
Qed.

Lemma matches_never_selects_eq_name_witness :
  outcome (matches (counter_sample [label "a=b" "c"] F64.zero) ["a=b=c"])
  = Some false.
Proof.
  apply (matches_never_selects_eq_name
           (counter_sample [label "a=b" "c"] F64.zero) ["a=b=c"]).
  - intros l name [<- | []] Hn. inversion Hn. reflexivity.
  - discriminate.
Defined.

(* ===================================================================== *)
(** ** More on [CollectMetrics] and [GetMetric] *)
(* ===================================================================== *)

Lemma collect_reports_errors c :
  forallb is_error (collect_reports c) = true.
Proof.
  unfold collect_reports. induction (Collect c) as [|h hs IH]; simpl; auto.
  rewrite forallb_app, IH, andb_true_r. unfold decode_report.
  destruct (snd (Write h new_Metric)); reflexivity.
Qed.

(** X7: [CollectMetrics] always returns, with one sample for each pushed
    handle.  It reports one non-fatal error for each handle whose [Write]
    failed and nothing else, so nothing at all when every decode succeeds;
    the errors come in push order, each carrying the error of its handle. *)
Theorem CollectMetrics_one_error_per_failure (c : prometheus_Collector) :
  exists result,
    outcome (CollectMetrics c) = Some result
    /\ List.length result = List.length (Collect c)
    /\ trace (CollectMetrics c) = flat_map decode_report (Collect c)
    /\ forallb is_error (trace (CollectMetrics c)) = true
    /\ List.length (trace (CollectMetrics c))
       = List.length (filter decode_fails (Collect c))
    /\ (decodes_ok c = true -> trace (CollectMetrics c) = []).
Proof.
  exists (samples c). rewrite CollectMetrics_eq. unfold outcome, trace.
  cbn [fst snd]. split; [reflexivity|]. split; [apply length_map|].
  split; [reflexivity|]. split; [apply collect_reports_errors|].
  split; [|apply collect_reports_ok].
  pose proof (count_decode_errors (Collect c)) as H.
  unfold count_events in H. rewrite <- H. unfold collect_reports.
  f_equal. symmetry. apply forallb_filter_id.
  apply (collect_reports_errors c).
Qed.

Lemma CollectMetrics_one_error_per_failure_witness :
  trace (CollectMetrics requests) = [].
Proof.
  destruct (CollectMetrics_one_error_per_failure requests)
    as (result & _ & _ & _ & _ & _ & H).
  exact (H eq_refl).
Defined.

Lemma find_hd_filter {A} (p : A -> bool) (l : list A) :
  find p l = hd_error (filter p l).
Proof.
  induction l as [|a l IH]; simpl; [reflexivity|].
  destruct (p a); [reflexivity | exact IH].
Qed.

Lemma matching_nil_filter c : matching c [] = samples c.
Proof.
  unfold matching. induction (samples c) as [|m ms IH]; simpl; auto.
  rewrite IH. reflexivity.
Qed.

Lemma matches_reports_nil_filter ms : matches_reports ms [] = [].
Proof.
  unfold matches_reports. induction ms as [|m ms IH]; simpl; auto.
Qed.

(** X8: [GetMetric] returns the head of the list of samples that the two
    assertions aggregate for the same filter.  With the empty filter it
    returns the first sample of the collector and the filter reports
    nothing; on a collector that pushes no handle it returns nil and reports
    nothing, whatever the filter (a malformed entry goes unnoticed). *)
Theorem GetMetric_head_of_matching (c : prometheus_Collector)
    (F : list string) :
  outcome (GetMetric c F) = Some (hd_error (matching c F))
  /\ GetMetric c [] = (trace (CollectMetrics c), Some (hd_error (samples c)))
  /\ GetMetric {| Collect := [] |} F = ([], Some None).
Proof.
  split; [|split].
  - rewrite GetMetric_eq. unfold outcome, matching. cbn [snd].
    rewrite find_hd_filter. reflexivity.
  - rewrite GetMetric_eq, CollectMetrics_eq. unfold trace. cbn [fst].
    destruct (samples c) as [|m ms]; simpl; rewrite ?app_nil_r; reflexivity.
  - reflexivity.
Qed.

(* ===================================================================== *)
(** ** More on the assertions *)
(* ===================================================================== *)

(** Adding to the zero value does not change what [==] sees. *)
Lemma eqb_add_zero (e v : float64) :
  F64.eqb e (F64.add F64.zero v) = F64.eqb e v.
Proof.
  destruct v as [[|]| | |], e as [[|]|[|]| |[|]]; reflexivity.
Qed.

(** X9: when exactly one sample matches the filter and it carries a counter
    or a gauge, [GetMetric] returns that sample and [AssertEquals] passes
    exactly when [expected] is equal ([==] on float64) to its value: the
    assertion agrees with comparing the value of the sample [GetMetric]
    returns. *)
Theorem AssertEquals_single_match (expected : float64)
    (c : prometheus_Collector) (F : list string) (m : dto_Metric) :
  matching c F = [m] -> has_value m = true ->
  outcome (GetMetric c F) = Some (Some m)
  /\ outcome (AssertEquals expected c F) = Some tt
  /\ existsb is_value_mismatch (trace (AssertEquals expected c F))
     = negb (F64.eqb expected (value_of m))
  /\ (F64.eqb expected (value_of m) = true ->
      trace (AssertEquals expected c F) = pipeline_reports c F).
Proof.
  intros Hm Hv.
  assert (Hall : forallb has_value (matching c F) = true)
    by (rewrite Hm; simpl; rewrite Hv; reflexivity).
  split; [|split; [|split]].
  - rewrite GetMetric_eq. unfold outcome. cbn [snd].
    rewrite find_hd_filter. fold (matching c F). rewrite Hm. reflexivity.
  - rewrite (AssertEquals_values _ _ _ Hall). reflexivity.
  - destruct (AssertEquals_values_reports expected c F Hall) as [H _].
    rewrite H, Hm. unfold f64_sum. cbn [map fold_left].
    rewrite eqb_add_zero. reflexivity.
  - intros E. rewrite (AssertEquals_values _ _ _ Hall), Hm.
    unfold f64_sum, trace. cbn [map fold_left]. rewrite eqb_add_zero, E.
    cbn [fst]. apply app_nil_r.
Qed.

Lemma AssertEquals_single_match_witness :
  outcome (GetMetric requests ["method=GET"])
  = Some (Some (counter_sample [label "method" "GET"] (F64.of_Z 3)))
  /\ trace (AssertEquals (F64.of_Z 3) requests ["method=GET"])
     = pipeline_reports requests ["method=GET"].
Proof.
  pose proof (AssertEquals_single_match (F64.of_Z 3) requests ["method=GET"]
                (counter_sample [label "method" "GET"] (F64.of_Z 3))
                eq_refl eq_refl) as (H1 & _ & _ & H4).
  split; [exact H1 | exact (H4 eq_refl)].
Defined.

(** X10: whatever the collector and the filter, [AssertEquals] gives one
    verdict: it is aborted exactly when some matching sample carries neither
    a counter nor a gauge, and then it has reported fatally once and no
    mismatch; otherwise it returns, with no fatal report and at most one
    mismatch error. *)
Theorem AssertEquals_one_verdict (expected : float64)
    (c : prometheus_Collector) (F : list string) :
  (forallb has_value (matching c F) = false ->
   outcome (AssertEquals expected c F) = None
   /\ count_events is_fatal (trace (AssertEquals expected c F)) = 1
   /\ count_events is_value_mismatch (trace (AssertEquals expected c F)) = 0)
  /\ (forallb has_value (matching c F) = true ->
      outcome (AssertEquals expected c F) = Some tt
      /\ count_events is_fatal (trace (AssertEquals expected c F)) = 0
      /\ count_events is_value_mismatch (trace (AssertEquals expected c F))
         <= 1).
Proof.
  split; intros H.
  - destruct (first_failing _ _ H) as (pre & m & rest & Hs & Hpre & Hm).
    rewrite AssertEquals_eq, Hs, (sum_loop_fatal _ _ _ _ Hpre Hm).
    unfold outcome, trace, count_events. cbn [fst snd bind].
    rewrite !filter_app, pipeline_reports_no_fatal,
      pipeline_no_value_mismatch.
    repeat split.
  - rewrite (AssertEquals_values _ _ _ H).
    unfold outcome, trace, count_events. cbn [fst snd].
    rewrite !filter_app, pipeline_reports_no_fatal,
      pipeline_no_value_mismatch.
    destruct (F64.eqb expected _); repeat split; simpl; auto.
Qed.

Lemma AssertEquals_one_verdict_witness :
  outcome (AssertEquals F64.zero durations []) = None
  /\ outcome (AssertEquals F64.zero requests []) = Some tt.
Proof.
  split.
  - exact (proj1 (proj1 (AssertEquals_one_verdict F64.zero durations [])
                    eq_refl)).
  - exact (proj1 (proj2 (AssertEquals_one_verdict F64.zero requests [])
                    eq_refl)).
Defined.

(** X11: with the empty filter every sample of the collector takes part and
    the filter stage reports nothing: when all samples carry a counter or a
    gauge, [AssertEquals] compares [expected] with the sum over all of them
    and reports, besides the decode errors, only the mismatch. *)
Theorem AssertEquals_no_filter (expected : float64)
    (c : prometheus_Collector) :
  forallb has_value (samples c) = true ->
  matching c [] = samples c
  /\ AssertEquals expected c []
     = (EvHelper :: trace (CollectMetrics c)
        ++ (if F64.eqb expected (f64_sum (map value_of (samples c)))
            then []
            else [EvError (MsgValueMismatch [] expected
                             (f64_sum (map value_of (samples c))))]),
        Some tt).
Proof.
  intros H. split; [apply matching_nil_filter|].
  assert (Hall : forallb has_value (matching c []) = true)
    by (rewrite matching_nil_filter; exact H).
  rewrite (AssertEquals_values _ _ _ Hall), matching_nil_filter.
  unfold pipeline_reports. rewrite matches_reports_nil_filter, app_nil_r.
  rewrite CollectMetrics_eq. reflexivity.
Qed.

Lemma AssertEquals_no_filter_witness :
  AssertEquals (F64.of_Z 5) requests [] = ([EvHelper], Some tt).
Proof.
  exact (proj2 (AssertEquals_no_filter (F64.of_Z 5) requests eq_refl)).
Defined.

(* ===================================================================== *)
(** ** Integer-valued fixtures *)
(* ===================================================================== *)

Local Open Scope Z_scope.

Lemma scaled_inj x y e :
  -1074 <= e -> F64.scaled x e = F64.scaled y e -> x = y.
Proof.
  unfold F64.scaled. intros He H.
  apply Z.mul_reg_r in H; [exact H|].
  assert (0 < 2 ^ (e + 1074)) by (apply Z.pow_pos_nonneg; lia). lia.
Qed.

Lemma SFeqb_finite_true s1 m1 e1 s2 m2 e2 :
  SFeqb (S754_finite s1 m1 e1) (S754_finite s2 m2 e2) = true ->
  s1 = s2 /\ m1 = m2 /\ e1 = e2.
Proof.
  unfold SFeqb, SFcompare.
  destruct s1, s2; try discriminate;
    destruct (Z.compare_spec e1 e2); try discriminate;
    destruct (Pos.compare_cont Eq m1 m2) eqn:E; try discriminate;
    intros _; apply Pos.compare_eq in E; auto.
Qed.

Lemma SFeqb_finite_refl s m e :
  SFeqb (S754_finite s m e) (S754_finite s m e) = true.
Proof.
  unfold SFeqb, SFcompare.
  destruct s; rewrite Z.compare_refl;
    change (Pos.compare_cont Eq m m) with (Pos.compare m m);
    rewrite Pos.compare_refl; reflexivity.
Qed.

(** On integers of magnitude at most [2^53], [==] on their float64s is
    equality of the integers. *)
Lemma eqb_of_Z a b :
  Z.abs a <= 2 ^ 53 -> Z.abs b <= 2 ^ 53 ->
  F64.eqb (F64.of_Z a) (F64.of_Z b) = (a =? b).
Proof.
  intros Ha Hb. unfold F64.eqb.
  destruct (Z.eqb_spec a b) as [<- | Hne].
  - destruct (Z.eq_dec a 0) as [-> | Na]; [reflexivity|].
    destruct (of_Z_finite a Na Ha) as (M & E & -> & _).
    apply SFeqb_finite_refl.
  - destruct (Z.eq_dec a 0) as [-> | Na]; destruct (Z.eq_dec b 0) as [-> | Nb].
    + congruence.
    + destruct (of_Z_finite b Nb Hb) as (M & E & -> & _).
      destruct (b <? 0); reflexivity.
    + destruct (of_Z_finite a Na Ha) as (M & E & -> & _).
      destruct (a <? 0); reflexivity.
    + destruct (of_Z_finite a Na Ha) as (Ma & Ea & HA & HEa & Hva).
      destruct (of_Z_finite b Nb Hb) as (Mb & Eb & HB & HEb & Hvb).
      rewrite HA, HB.
      destruct (SFeqb (S754_finite (a <? 0) Ma Ea)
                  (S754_finite (b <? 0) Mb Eb)) eqn:E; [|reflexivity].
      apply SFeqb_finite_true in E as (Hs & Hm & He).
      rewrite Hs, Hm, He, Hvb in Hva.
      apply scaled_inj in Hva; [congruence | lia].
Qed.

(** X12: on integer-valued fixtures [AssertEquals] is the comparison of
    integers: when the values of the matching samples are integers whose
    magnitudes add up to at most [2^53] and [expected] is an integer of
    magnitude at most [2^53], the mismatch error is reported exactly when
    [expected] differs from the integer sum, and the value it shows is the
    float64 of that sum. *)
Theorem AssertEquals_integer_fixtures (e : Z) (c : prometheus_Collector)
    (F : list string) (zs : list Z) :
  forallb has_value (matching c F) = true ->
  map value_of (matching c F) = map F64.of_Z zs ->
  Zsum (map Z.abs zs) <= 2 ^ 53 ->
  Z.abs e <= 2 ^ 53 ->
  AssertEquals (F64.of_Z e) c F
  = (pipeline_reports c F
     ++ (if e =? Zsum zs
         then []
         else [EvError (MsgValueMismatch F (F64.of_Z e)
                          (F64.of_Z (Zsum zs)))]),
     Some tt).
Proof.
  intros Hv Hz Hb He.
  assert (Habs : Z.abs (Zsum zs) <= Zsum (map Z.abs zs)).
  { clear. induction zs as [|z zs IH]; simpl; lia. }
  rewrite (AssertEquals_values _ _ _ Hv), Hz. unfold f64_sum.
  change F64.zero with (F64.of_Z 0).
  rewrite f64_sum_of_Z by (simpl; lia). rewrite Z.add_0_l.
  rewrite eqb_of_Z by lia. reflexivity.
Qed.

Lemma AssertEquals_integer_fixtures_witness :
  AssertEquals (F64.of_Z 4) requests []
  = (pipeline_reports requests []
     ++ [EvError (MsgValueMismatch [] (F64.of_Z 4) (F64.of_Z 5))],
     Some tt).
Proof.
  refine (AssertEquals_integer_fixtures 4 requests [] [3; 2]
            eq_refl eq_refl _ _); vm_compute; discriminate.
Defined.

Local Close Scope Z_scope.

(* ===================================================================== *)
(** ** The order of the samples in [AssertSummarySampleCount] *)
(* ===================================================================== *)

Lemma count_loop_eq w ms :
  count_loop w ms 0%Z
  = if forallb has_summary ms
    then ([], Some (GoInt.wrap w (Zsum (map sample_count_of ms))))
    else ([EvFatal MsgNotSummary], None).
Proof.
  destruct (forallb has_summary ms) eqn:E.
  - rewrite (count_loop_counts w _ _ E). fold (int_sum w (map sample_count_of ms)).
    rewrite int_sum_wrap. reflexivity.
  - destruct (first_failing _ _ E) as (pre & m & rest & -> & Hp & Hm).
    apply count_loop_fatal; assumption.
Qed.

Lemma forallb_Permutation_eq {A} (p : A -> bool) l l' :
  Permutation l l' -> forallb p l = forallb p l'.
Proof.
  intros HP. destruct (forallb p l') eqn:E.
  - apply (forallb_Permutation p l' l (Permutation_sym HP) E).
  - destruct (forallb p l) eqn:E'; [|reflexivity].
    rewrite (forallb_Permutation p l l' HP E') in E. discriminate.
Qed.

(** X13: unlike the float64 sum of [AssertEquals], the accumulated value of
    [AssertSummarySampleCount] never depends on the order of the matching
    samples: [int] addition wraps around but stays associative and
    commutative, so on every permutation of a list the aggregation loop
    returns the same value, or is aborted alike when some sample has no
    summary. *)
Theorem count_loop_order_independent (w : GoInt.IntSize)
    (ms ms' : list dto_Metric) :
  Permutation ms ms' ->
  count_loop w ms' 0%Z = count_loop w ms 0%Z.
Proof.
  intros HP. rewrite !count_loop_eq.
  rewrite (forallb_Permutation_eq has_summary ms ms' HP).
  rewrite (Zsum_Permutation _ _ (Permutation_map sample_count_of HP)).
  reflexivity.
Qed.

Lemma count_loop_order_independent_witness :
  count_loop GoInt.Int32
    [summary_sample [] 1; summary_sample [] 4294967295] 0%Z
  = count_loop GoInt.Int32
      [summary_sample [] 4294967295; summary_sample [] 1] 0%Z.
Proof.
  apply (count_loop_order_independent GoInt.Int32). apply perm_swap.
Defined.

(** Float64 addition is commutative. *)
Lemma F64_add_comm (x y : float64) : F64.add x y = F64.add y x.
Proof.
  unfold F64.add.
  destruct x as [[|]|[|]| |sx mx ex], y as [[|]|[|]| |sy my ey];
    try reflexivity.
  cbn [SFadd]. rewrite (Z.min_comm ex ey). f_equal. apply Z.add_comm.
Qed.

Lemma F64_add_zero_swap (a b : float64) :
  F64.add (F64.add F64.zero a) b = F64.add (F64.add F64.zero b) a.
Proof.
  destruct a as [[|]|[|]| |sa ma ea], b as [[|]|[|]| |sb mb eb];
    try reflexivity.
  change (F64.add F64.zero (S754_finite sa ma ea))
    with (S754_finite sa ma ea).
  change (F64.add F64.zero (S754_finite sb mb eb))
    with (S754_finite sb mb eb).
  apply F64_add_comm.
Qed.

(** X14: the order of the samples starts to matter only with the third one:
    for two samples, whatever float64 values they carry (NaN, infinities and
    signed zeros included), the aggregation loop of [AssertEquals] returns
    the same accumulated value in both orders, and is aborted in both when
    one of them has neither counter nor gauge. *)
Theorem sum_loop_swap_two (m1 m2 : dto_Metric) :
  sum_loop [m1; m2] F64.zero = sum_loop [m2; m1] F64.zero.
Proof.
  cbn [sum_loop].
  destruct (Counter m1) as [c1|], (Gauge m1) as [g1|],
           (Counter m2) as [c2|], (Gauge m2) as [g2|];
    try reflexivity; unfold ret; do 2 f_equal; apply F64_add_zero_swap.
Qed.

(* ===================================================================== *)
(** ** The end of the handoff *)
(* ===================================================================== *)

(** X15: under every schedule, when [CollectMetrics] returns exactly two
    moves per pushed handle plus three have been made, the channel is closed
    and neither goroutine can move any more: the worker has exited and no
    send is pending, so nothing is left running behind the call. *)
Theorem handoff_return_is_final (c : prometheus_Collector)
    (sched : list Action) (st : Handoff) (result : list dto_Metric) :
  run sched (handoff_init c) = Some st ->
  h_main st = MReturned result ->
  List.length sched = 2 * List.length (Collect c) + 3
  /\ h_closed st = true
  /\ h_worker st = WExited
  /\ forall a, step a st = None.
Proof.
  intros Hrun Hret.
  pose proof (run_inv c sched _ _ (handoff_init_inv c) Hrun) as Hinv.
  pose proof (run_moves_left c sched _ _ (handoff_init_inv c) Hrun) as Hm.
  destruct (handoff_returned c st result Hinv Hret)
    as (_ & _ & Hin & Hun & Hw).
  destruct Hinv as (_ & _ & Hcl & _).
  rewrite Hret in Hcl.
  unfold moves_left in Hm. rewrite Hin, Hun, Hcl, Hw, Hret in Hm.
  unfold handoff_init, unsent, inflight in Hm. simpl in Hm.
  split; [lia|]. split; [exact Hcl|]. split; [exact Hw|].
  intros a. destruct a; unfold step; rewrite ?Hret, ?Hw; reflexivity.
Qed.

Lemma handoff_return_is_final_witness :
  List.length [ASend; AConvert; ASend; AClose; AConvert; ASignal; AReturn]
  = 2 * List.length (Collect requests) + 3.
Proof.
  exact (proj1 (handoff_return_is_final requests
                  [ASend; AConvert; ASend; AClose; AConvert; ASignal; AReturn]
                  _ _ eq_refl eq_refl)).
Defined.

(* ===================================================================== *)
(** ** Edges of the two comparisons *)
(* ===================================================================== *)

Lemma fold_add_nan vs : fold_left F64.add vs S754_nan = S754_nan.
Proof. induction vs as [|v vs IH]; simpl; auto. Qed.

Lemma fold_add_with_nan vs : forall acc,
  In S754_nan vs -> fold_left F64.add vs acc = S754_nan.
Proof.
  induction vs as [|v vs IH]; intros acc H; [destruct H|].
  destruct H as [-> | H]; simpl.
  - replace (F64.add acc S754_nan) with S754_nan
      by (destruct acc as [[|]|[|]| |]; reflexivity).
    apply fold_add_nan.
  - apply IH, H.
Qed.

Lemma eqb_nan_r e : F64.eqb e S754_nan = false.
Proof. destruct e as [[|]|[|]| |[|]]; reflexivity. Qed.

(** X16: NaN never passes: when the matching samples all carry a counter or
    a gauge and either [expected] or the value of one of them is NaN,
    [AssertEquals] reports the mismatch error, whatever the other values. *)
Theorem AssertEquals_nan_mismatch (expected : float64)
    (c : prometheus_Collector) (F : list string) :
  forallb has_value (matching c F) = true ->
  expected = S754_nan \/ In S754_nan (map value_of (matching c F)) ->
  existsb is_value_mismatch (trace (AssertEquals expected c F)) = true.
Proof.
  intros Hv Hn.
  destruct (AssertEquals_values_reports expected c F Hv) as [H _].
  rewrite H. apply negb_true_iff. destruct Hn as [-> | Hin].
  - reflexivity.
  - unfold f64_sum. rewrite (fold_add_with_nan _ _ Hin). apply eqb_nan_r.
Qed.

Lemma AssertEquals_nan_mismatch_witness :
  existsb is_value_mismatch (trace (AssertEquals S754_nan requests [])) = true.
Proof.
  apply (AssertEquals_nan_mismatch S754_nan requests [] eq_refl).
  left. reflexivity.
Defined.

Local Open Scope Z_scope.

Lemma wrap_eq_iff w a b :
  GoInt.wrap w a = GoInt.wrap w b <-> (a - b) mod 2 ^ GoInt.bits w = 0.
Proof.
  assert (Hm : 0 < 2 ^ GoInt.bits w)
    by (apply Z.pow_pos_nonneg; [lia | pose proof (bits_pos w); lia]).
  split; [|apply wrap_congr].
  intros H. pose proof (wrap_diff w a) as Ha. pose proof (wrap_diff w b) as Hb.
  apply Z.mod_divide in Ha, Hb; try lia.
  destruct Ha as [ka Ha], Hb as [kb Hb].
  replace (a - b) with ((kb - ka) * 2 ^ GoInt.bits w) by lia.
  apply Z.mod_mul. lia.
Qed.

(** X17: [AssertSummarySampleCount] compares modulo the width of [int]:
    when the matching samples all carry a summary and [expected] is an
    [int], the mismatch error is reported exactly when [expected] and the
    exact sum of the sample counts differ by something that is not a
    multiple of [2^32] (or [2^64]).  A sum that overflows can therefore pass
    against the wrapped value, and does not pass against the exact one. *)
Theorem AssertSummarySampleCount_modulo (w : GoInt.IntSize) (expected : Z)
    (c : prometheus_Collector) (F : list string) :
  forallb has_summary (matching c F) = true ->
  GoInt.is_int w expected ->
  (existsb is_count_mismatch
     (trace (AssertSummarySampleCount w expected c F)) = false
   <-> (expected - Zsum (map sample_count_of (matching c F)))
       mod 2 ^ GoInt.bits w = 0).
Proof.
  intros Hs He.
  rewrite AssertSummarySampleCount_eq, (count_loop_counts w _ _ Hs),
    bind_value.
  fold (int_sum w (map sample_count_of (matching c F))).
  rewrite int_sum_wrap, <- wrap_eq_iff, (wrap_id w expected He).
  unfold trace. cbn [fst]. rewrite existsb_app.
  rewrite (filter_nil_existsb _ _ (pipeline_no_count_mismatch c F)).
  destruct (Z.eqb_spec expected
              (GoInt.wrap w (Zsum (map sample_count_of (matching c F)))));
    simpl; split; intros; congruence.
Qed.

Lemma AssertSummarySampleCount_modulo_witness :
  existsb is_count_mismatch
    (trace (AssertSummarySampleCount GoInt.Int32 (-1)
              (collector_of [summary_sample [] 4294967295]) [])) = false.
Proof.
  apply (AssertSummarySampleCount_modulo GoInt.Int32 (-1)
           (collector_of [summary_sample [] 4294967295]) [] eq_refl).
  - unfold GoInt.is_int. simpl. lia.
  - reflexivity.
Defined.

Local Close Scope Z_scope.
